(** * torchlayers / upsample.py : Conv2dPixelShuffle and its ICNR initializer

    A shallow embedding of [Conv2dPixelShuffle] (the constructor, [post_build]
    and [icnr_initialization]) together with the few [torch] tensor
    primitives the method calls: [torch.zeros], [Tensor.transpose],
    [Tensor.reshape] and [Tensor.repeat].

    Tensors live in a store and are handled through references, because the
    Python code passes tensor objects around and an initializer such as
    [torch.nn.init.kaiming_normal_] fills its argument in place.  Python
    exceptions are outcomes of the computation; the store survives them. *)

From Stdlib Require Import ZArith List Lia String PrimFloat.
From stdpp Require Import base list.

Local Open Scope Z_scope.

(** ** Shapes and row-major index arithmetic *)

Module Shape.

(** Number of elements of a tensor of the given shape. *)
Fixpoint numel (shape : list Z) : Z :=
  match shape with
  | [] => 1
  | d :: ds => d * numel ds
  end.

(** Flat (row-major) offset of a multi-index. *)
Fixpoint ravel (shape idx : list Z) : Z :=
  match shape, idx with
  | _ :: ds, i :: is_ => i * numel ds + ravel ds is_
  | _, _ => 0
  end.

(** Multi-index of a flat offset. *)
Fixpoint unravel (shape : list Z) (x : Z) : list Z :=
  match shape with
  | [] => []
  | _ :: ds => x / numel ds :: unravel ds (x mod numel ds)
  end.

(** [idx] addresses an element of a tensor of shape [shape]. *)
Fixpoint in_range (shape idx : list Z) : Prop :=
  match shape, idx with
  | [], [] => True
  | d :: ds, i :: is_ => 0 <= i < d /\ in_range ds is_
  | _, _ => False
  end.

(** Exchange the entries at positions [i] and [j]. *)
Definition swap {X} (i j : nat) (l : list X) : list X :=
  match l !! i, l !! j with
  | Some a, Some b => <[i := b]> (<[j := a]> l)
  | _, _ => l
  end.

(** Pointwise product and remainder, as [repeat] uses them. *)
Fixpoint scale (shape sizes : list Z) : list Z :=
  match shape, sizes with
  | d :: ds, n :: ns => d * n :: scale ds ns
  | _, _ => []
  end.

Fixpoint wrap (shape idx : list Z) : list Z :=
  match shape, idx with
  | d :: ds, i :: is_ => i mod d :: wrap ds is_
  | _, _ => []
  end.

End Shape.

(** ** Tensor values *)

Section Tensors.

(** The element type (a float in the program) and its zero. *)
Context {A : Type} (zero : A).

Record Tensor := mkTensor { shape : list Z; data : list A }.

(** A tensor value is well formed when it holds [numel shape] elements and
    no dimension is negative. *)
Definition wf (t : Tensor) : Prop :=
  Forall (fun d => 0 <= d) (shape t) /\
  Z.of_nat (length (data t)) = Shape.numel (shape t).

Definition tabulate (n : Z) (f : Z -> A) : list A :=
  map (fun k => f (Z.of_nat k)) (seq 0 (Z.to_nat n)).

(** Element at a flat offset, and at a multi-index. *)
Definition at_flat (t : Tensor) (x : Z) : A := nth (Z.to_nat x) (data t) zero.
Definition get (t : Tensor) (idx : list Z) : A :=
  at_flat t (Shape.ravel (shape t) idx).

(** A new tensor of shape [new_shape] whose element at [idx] is the
    element of [t] at [src idx]. *)
Definition gather (t : Tensor) (new_shape : list Z)
    (src : list Z -> list Z) : Tensor :=
  mkTensor new_shape
    (tabulate (Shape.numel new_shape)
       (fun x => get t (src (Shape.unravel new_shape x)))).

(** [t[o]] : the slice at position [o] of the first axis. *)
Definition select0 (t : Tensor) (o : Z) : Tensor :=
  gather t (tail (shape t)) (fun idx => o :: idx).

(** [torch.zeros(shape)] *)
Definition zeros_val (sh : list Z) : Tensor :=
  mkTensor sh (tabulate (Shape.numel sh) (fun _ => zero)).

(** [t.transpose(d0, d1)] on values. *)
Definition transpose_val (t : Tensor) (d0 d1 : nat) : Tensor :=
  gather t (Shape.swap d0 d1 (shape t)) (Shape.swap d0 d1).

(** [t.repeat(sizes...)] on values, for as many sizes as [t] has axes. *)
Definition repeat_val (t : Tensor) (sizes : list Z) : Tensor :=
  gather t (Shape.scale (shape t) sizes) (Shape.wrap (shape t)).

(** [t.reshape(sh)] on values, for a fully resolved [sh] of the same
    number of elements: the row-major sequence of elements is kept. *)
Definition reshape_val (t : Tensor) (sh : list Z) : Tensor :=
  mkTensor sh (tabulate (Shape.numel sh) (at_flat t)).

End Tensors.

Arguments Tensor : clear implicits.
Arguments mkTensor {A} shape data.

(** ** Python exceptions, the tensor store and the computation monad *)

Inductive exn :=
| ZeroDivisionError
| IndexError
| RuntimeError (msg : string)
| OtherError (msg : string).

Inductive outcome (X : Type) :=
| Return (x : X)
| Raise (e : exn).
Arguments Return {X} x.
Arguments Raise {X} e.

(** A reference names a tensor object; the store holds its current value. *)
Abbreviation ref := nat (only parsing).
Abbreviation store A := (list (Tensor A)) (only parsing).

Section Torch.

Context {A : Type} (zero : A).

Definition M (X : Type) : Type := store A -> outcome X * store A.

Definition ret {X} (x : X) : M X := fun s => (Return x, s).
Definition raise {X} (e : exn) : M X := fun s => (Raise e, s).
Definition bind {X Y} (m : M X) (k : X -> M Y) : M Y :=
  fun s => match m s with
           | (Return x, s') => k x s'
           | (Raise e, s') => (Raise e, s')
           end.

Notation "'let*' x ':=' m 'in' k" := (bind m (fun x => k))
  (at level 10, x name, m at level 100, k at level 200).

Definition alloc (t : Tensor A) : M ref :=
  fun s => (Return (length s), s ++ [t]).

Definition load (l : ref) : M (Tensor A) :=
  fun s => match s !! l with
           | Some t => (Return t, s)
           | None => (Raise (OtherError "dangling tensor reference"), s)
           end.

(** *** Python operators used by the method *)

(** [l[i]] for a non-negative literal index. *)
Definition getitem (l : list Z) (i : nat) : M Z :=
  match l !! i with
  | Some d => ret d
  | None => raise IndexError
  end.

(** [int(a / b)]: true division, then truncation towards zero.  The
    quotient of two integers below 2^53 in magnitude is rounded to a float
    that truncates to the integer quotient; this is the integer quotient,
    and it is the value of the Python expression for [a] below 2^53 only
    (a first dimension of 2^53 or more is that of a tensor without
    elements). *)
Definition int_truediv (a b : Z) : M Z :=
  if b =? 0 then raise ZeroDivisionError else ret (a ÷ b).

(** *** The torch primitives the method calls

    Each of [transpose], [reshape] and [repeat] reads the tensor it is
    applied to, raises or computes a value, and yields a new tensor
    object.  In torch [transpose] and [reshape] may return views; to a
    program that never writes through them a view is as good as a new
    tensor. *)

Definition apply_op (op : Tensor A -> exn + Tensor A) (l : ref) : M ref :=
  let* t := load l in
  match op t with
  | inr v => alloc v
  | inl e => raise e
  end.

(** [tensor.shape] *)
Definition Tensor_shape (l : ref) : M (list Z) :=
  let* t := load l in ret (shape t).

(** [torch.zeros(sh)] *)
Definition torch_zeros (sh : list Z) : M ref :=
  if forallb (fun d => 0 <=? d) sh then alloc (zeros_val zero sh)
  else raise (RuntimeError "Trying to create tensor with negative dimension").

(** [tensor.transpose(d0, d1)] for non-negative [d0], [d1]; a dimension is
    in range when it is below [max 1 rank]. *)
Definition transpose_op (d0 d1 : nat) (t : Tensor A) : exn + Tensor A :=
  let rank := Nat.max 1 (length (shape t)) in
  if (d0 <? rank)%nat && (d1 <? rank)%nat
  then inr (transpose_val zero t d0 d1)
  else inl IndexError.

Definition transpose (l : ref) (d0 d1 : nat) : M ref :=
  apply_op (transpose_op d0 d1) l.

(** Size inference of [reshape] (ATen's [infer_size]): one entry may be
    [-1]; it is resolved from the number of elements. *)
Fixpoint infer_scan (spec : list Z) (pos : nat) (newsize : Z)
    (infer_dim : option nat) : exn + Z * option nat :=
  match spec with
  | [] => inr (newsize, infer_dim)
  | d :: ds =>
      if d =? -1 then
        match infer_dim with
        | Some _ => inl (RuntimeError "only one dimension can be inferred")
        | None => infer_scan ds (S pos) newsize (Some pos)
        end
      else if 0 <=? d then infer_scan ds (S pos) (newsize * d) infer_dim
      else inl (RuntimeError "invalid shape dimension")
  end.

Definition infer_size (spec : list Z) (n : Z) : exn + list Z :=
  match infer_scan spec 0 1 None with
  | inl e => inl e
  | inr (newsize, infer_dim) =>
      if (n =? newsize)
         || (bool_decide (is_Some infer_dim) && (0 <? newsize)
             && (n mod newsize =? 0))
      then
        match infer_dim with
        | Some k =>
            if newsize =? 0
            then inl (RuntimeError
                   "cannot reshape tensor of 0 elements: the unspecified dimension size -1 is ambiguous")
            else inr (<[k := n / newsize]> spec)
        | None => inr spec
        end
      else inl (RuntimeError "shape is invalid for input size")
  end.

(** [tensor.reshape(spec)] *)
Definition reshape_op (spec : list Z) (t : Tensor A) : exn + Tensor A :=
  match infer_size spec (Shape.numel (shape t)) with
  | inr sh => inr (reshape_val zero t sh)
  | inl e => inl e
  end.

Definition reshape (l : ref) (spec : list Z) : M ref :=
  apply_op (reshape_op spec) l.

(** [tensor.repeat(sizes...)]: missing leading axes of the tensor count
    as axes of size one. *)
Definition repeat_op (sizes : list Z) (t : Tensor A) : exn + Tensor A :=
  if (length sizes <? length (shape t))%nat then
    inl (RuntimeError
      "Number of dimensions of repeat dims can not be smaller than number of dimensions of tensor")
  else if forallb (fun n => 0 <=? n) sizes then
    let padded :=
      mkTensor (replicate (length sizes - length (shape t)) 1 ++ shape t)
               (data t) in
    inr (repeat_val zero padded sizes)
  else inl (RuntimeError "Trying to create tensor with negative dimension").

Definition repeat (l : ref) (sizes : list Z) : M ref :=
  apply_op (repeat_op sizes) l.

(** ** The class *)

(** [torch.nn.PixelShuffle]: its constructor stores the factor. *)
Record PixelShuffle := { upscale_factor : Z }.

Definition PixelShuffle_new (r : Z) : M PixelShuffle :=
  ret {| upscale_factor := r |}.

(** Modelled from the spec: [convolution.Conv] is not part of the source
    file.  The spec gives the convolution component one thing this class
    touches: the weight tensor it owns, reached as
    [self.convolution.weight.data], which shares the weight's storage. *)
Record Conv := { weight : ref }.

Record conv_args := {
  in_channels : Z;
  conv_out_channels : Z;
  kernel_size : Z;
  stride : Z;
  padding : Z + string;
  dilation : Z;
  groups : Z;
  bias : bool;
  padding_mode : string
}.

Record Conv2dPixelShuffle := {
  convolution : Conv;
  upsample : PixelShuffle;
  initializer : ref -> M ref
}.

Section Constructor.

(** The constructor of [convolution.Conv], whatever it does. *)
Variable Conv_new : conv_args -> M Conv.

(** [Conv2dPixelShuffle.__init__] (upsample.py, lines 41-71), with every
    argument given: the convolution is constructed first, for
    [out_channels * upscale_factor * upscale_factor] output channels, then
    the [PixelShuffle]; the initializer is stored. *)
Definition __init__ (in_ch out_channels r k st : Z) (pad : Z + string)
    (dil grp : Z) (b : bool) (pmode : string) (init : ref -> M ref)
    : M Conv2dPixelShuffle :=
  let* conv :=
    Conv_new {| in_channels := in_ch;
                conv_out_channels := out_channels * r * r;
                kernel_size := k; stride := st; padding := pad;
                dilation := dil; groups := grp; bias := b;
                padding_mode := pmode |} in
  let* ups := PixelShuffle_new r in
  ret {| convolution := conv; upsample := ups; initializer := init |}.

End Constructor.

(** [icnr_initialization] (upsample.py, lines 76-110), statement by
    statement: [new_shape], [subkernel], [kernel] and the returned tensor. *)
Definition icnr_initialization (self : Conv2dPixelShuffle) (tensor : ref)
    : M ref :=
  if upscale_factor (upsample self) =? 1 then initializer self tensor
  else
    let* tshape := Tensor_shape tensor in
    let* o := getitem tshape 0 in
    let* q := int_truediv o (upscale_factor (upsample self) ^ 2) in
    let new_shape := [q] ++ drop 1 tshape in
    let* z := torch_zeros new_shape in
    let* filled := initializer self z in
    let* subkernel := transpose filled 0 1 in
    let* sshape := Tensor_shape subkernel in
    let* s0 := getitem sshape 0 in
    let* s1 := getitem sshape 1 in
    let* flat := reshape subkernel [s0; s1; -1] in
    let* kernel := repeat flat [1; 1; upscale_factor (upsample self) ^ 2] in
    let* tshape' := Tensor_shape tensor in
    let* o' := getitem tshape' 0 in
    let* shaped := reshape kernel ([-1; o'] ++ drop 2 tshape') in
    transpose shaped 0 1.

(** [post_build] (upsample.py, lines 73-74): the method is called on
    [self.convolution.weight.data]; what it returns is not used. *)
Definition post_build (self : Conv2dPixelShuffle) : M unit :=
  let* _ := icnr_initialization self (weight (convolution self)) in
  ret tt.

End Torch.

Notation "'let*' x ':=' m 'in' k" := (bind m (fun x => k))
  (at level 10, x name, m at level 100, k at level 200).

(** ** The contract of a base initializer *)

Section Contracts.

Context {A : Type}.
Implicit Types (f : ref -> M (A:=A) ref) (s : store A).

(** What a caller can see of a call that returns a tensor: the value of
    the tensor it returned, or the exception. *)
Definition observe (r : outcome ref * store A)
    : outcome (option (Tensor A)) :=
  match r with
  | (Return l, s) => Return (s !! l)
  | (Raise e, _) => Raise e
  end.

(** Shape-preserving: handed a tensor, [f] returns a tensor of the same
    shape. *)
Definition shape_preserving f : Prop :=
  forall s l t, s !! l = Some t -> wf t ->
    exists l' s' t',
      f l s = (Return l', s') /\ s' !! l' = Some t' /\
      shape t' = shape t.

(** [f] writes to no tensor but the one it is handed (which it may fill
    in place). *)
Definition argument_local f : Prop :=
  forall s l k, k <> l -> (k < length s)%nat -> (f l s).2 !! k = s !! k.

(** Side-effect-free: [f] writes to no existing tensor at all, its
    argument included. *)
Definition side_effect_free f : Prop :=
  forall s l k v, s !! k = Some v -> (f l s).2 !! k = Some v.

(** [m] leaves the tensor at [k], of value [v], as it is, whether it
    returns or raises; what it returns satisfies [P]. *)
Definition keeps {X} (k : ref) (v : Tensor A) (m : M (A:=A) X)
    (P : X -> Prop) : Prop :=
  forall s, s !! k = Some v ->
    (m s).2 !! k = Some v /\
    match (m s).1 with
    | Return x => P x
    | Raise _ => True
    end.

(** Deterministic: what [f] returns depends on the value of the tensor it
    is handed and on nothing else. *)
Definition deterministic f : Prop :=
  forall s1 l1 s2 l2 t,
    s1 !! l1 = Some t -> s2 !! l2 = Some t ->
    observe (f l1 s1) = observe (f l2 s2).

End Contracts.

(** ** The algorithm as the specification words it *)

Section Reference.

Context {A : Type} (zero : A).

(** Steps 3 to 6 of the specification, from the sub-kernel [sub] that the
    base initializer produced in step 2 out of a zero-filled tensor of
    shape [[reduced_out; I; kH; kW]]. *)
Definition icnr_reference_steps (sub : Tensor A) (O I kH kW r : Z)
    : Tensor A :=
  let r2 := r * r in
  let reduced_out := O / r2 in
  (* 3. transpose the first two axes: [I; reduced_out; kH; kW] *)
  let t3 := transpose_val zero sub 0 1 in
  (* 4. flatten the trailing spatial dimensions into one axis *)
  let t4 := reshape_val zero t3 [I; reduced_out; kH * kW] in
  (* 5. tile r2 times along the last axis *)
  let t5 := repeat_val zero t4 [1; 1; r2] in
  (* 6. reshape to [-1; O; kH; kW], then transpose axes 0 and 1 *)
  let t6 := reshape_val zero t5
              [Shape.numel (shape t5) / (O * kH * kW); O; kH; kW] in
  transpose_val zero t6 0 1.

(** Step 2: the sub-kernel is what the base initializer [f] makes of a
    zero-filled tensor of the reduced shape, created in store [s]. *)
Definition subkernel_of (f : ref -> M (A:=A) ref) (s : store A)
    (O I kH kW r : Z) (sub : Tensor A) (s1 : store A) : Prop :=
  exists l1,
    f (length s) (s ++ [zeros_val zero [O / (r * r); I; kH; kW]])
      = (Return l1, s1)
    /\ s1 !! l1 = Some sub.

End Reference.

(** ** What a caller observes of the method, as a function of its inputs *)

Section Observable.

Context {A : Type} (zero : A).

Definition and_then {X Y} (x : exn + X) (k : X -> exn + Y) : exn + Y :=
  match x with
  | inl e => inl e
  | inr v => k v
  end.

Definition item (l : list Z) (i : nat) : exn + Z :=
  match l !! i with
  | Some d => inr d
  | None => inl IndexError
  end.

(** The reshaping chain of the method on tensor values: what it makes of
    the tensor [u] that the base initializer returned, when the tensor to
    initialize has shape [tshape]. *)
Definition icnr_chain (r : Z) (tshape : list Z) (u : Tensor A)
    : exn + Tensor A :=
  and_then (transpose_op zero 0 1 u) (fun subkernel =>
  and_then (item (shape subkernel) 0) (fun s0 =>
  and_then (item (shape subkernel) 1) (fun s1 =>
  and_then (reshape_op zero [s0; s1; -1] subkernel) (fun flat =>
  and_then (repeat_op zero [1; 1; r ^ 2] flat) (fun kernel =>
  and_then (item tshape 0) (fun o' =>
  and_then (reshape_op zero ([-1; o'] ++ drop 2 tshape) kernel) (fun shaped =>
  transpose_op zero 0 1 shaped))))))).

(** The whole method for an upscale factor other than 1, given the shape of
    the tensor to initialize and [init_obs], which tells what the base
    initializer is seen to return on a tensor value. *)
Definition icnr_observable (r : Z) (tshape : list Z)
    (init_obs : Tensor A -> outcome (option (Tensor A)))
    : outcome (option (Tensor A)) :=
  match tshape !! 0%nat with
  | None => Raise IndexError
  | Some o =>
      if r ^ 2 =? 0 then Raise ZeroDivisionError
      else if forallb (fun d => 0 <=? d) ([o ÷ r ^ 2] ++ drop 1 tshape) then
        match init_obs (zeros_val zero ([o ÷ r ^ 2] ++ drop 1 tshape)) with
        | Raise e => Raise e
        | Return None => Raise (OtherError "dangling tensor reference")
        | Return (Some u) =>
            match icnr_chain r tshape u with
            | inl e => Raise e
            | inr v => Return (Some v)
            end
        end
      else Raise (RuntimeError "Trying to create tensor with negative dimension")
  end.

End Observable.

(** ** Some base initializers *)

Section Initializers.

Context {A : Type} (zero : A).

(** The tensor of shape [sh] whose element at flat offset [x] is
    [g sh x]. *)
Definition filled (g : list Z -> Z -> A) (sh : list Z) : Tensor A :=
  mkTensor sh (tabulate (Shape.numel sh) (g sh)).

(** An initializer in the style of [torch.nn.init]: it fills the tensor it
    is handed, in place, and returns that same tensor. *)
Definition fill_in_place (g : list Z -> Z -> A) (l : ref) : M (A:=A) ref :=
  let* t := load l in
  fun s => (Return l, <[l := filled g (shape t)]> s).

(** An initializer that leaves its argument alone and returns a new
    tensor. *)
Definition fill_fresh (g : list Z -> Z -> A) (l : ref) : M (A:=A) ref :=
  let* t := load l in
  alloc (filled g (shape t)).

(** Constant fill. *)
Definition constant (v : A) : list Z -> Z -> A := fun _ _ => v.

(** One value per slice of the first axis: slice [c] is filled with the
    [c]-th of [vals]. *)
Definition by_channel (vals : list A) : list Z -> Z -> A :=
  fun sh x => nth (Z.to_nat (x / Shape.numel (tail sh))) vals zero.

(** Modelled from the spec: [convolution.Conv] is not part of the source
    file.  Per the spec, the convolution component allocates its weight
    tensor, of shape [[out_channels; in_channels / groups; kH; kW]], at
    construction, uninitialized; [junk] stands for the uninitialized
    contents. *)
Definition Conv_alloc (junk : A) (a : conv_args) : M (A:=A) Conv :=
  let sh := [conv_out_channels a; in_channels a / groups a;
             kernel_size a; kernel_size a] in
  let* w := alloc (filled (constant junk) sh) in
  ret {| weight := w |}.

(** A built module with upscale factor [r] and base initializer [f],
    whose convolution weight is the tensor at reference [w]. *)
Definition built (w : ref) (r : Z) (f : ref -> M (A:=A) ref)
    : Conv2dPixelShuffle :=
  {| convolution := {| weight := w |};
     upsample := {| upscale_factor := r |};
     initializer := f |}.

End Initializers.

(** ** Sample data, with integers for elements *)

(** A convolution weight of shape [[4; 1; 1; 1]] that has contents already. *)
Definition weight4 : Tensor Z := mkTensor [4; 1; 1; 1] [5; 6; 7; 8].

(** Fill with ones, in place, as [torch.nn.init.ones_] does. *)
Definition ones : ref -> M (A:=Z) ref := fill_in_place (constant 1).

(** A base initializer that raises. *)
Definition failing : ref -> M (A:=Z) ref :=
  fun _ => raise (OtherError "initializer failed").

(** * Properties *)

(** ** Row-major index arithmetic *)

Module ShapeFacts.
Import Shape.

Lemma numel_nonneg sh : Forall (fun d => 0 <= d) sh -> 0 <= numel sh.
Proof.
  induction 1 as [|d ds Hd _ IH]; cbn; [lia | nia].
Qed.

Lemma numel_pos sh : Forall (fun d => 0 < d) sh -> 0 < numel sh.
Proof.
  induction 1 as [|d ds Hd _ IH]; cbn; [lia | nia].
Qed.

Lemma in_range_length sh : forall idx, in_range sh idx -> length idx = length sh.
Proof.
  induction sh as [|d ds IH]; intros [|i is_]; cbn; try tauto.
  intros [_ H]. f_equal. now apply IH.
Qed.

Lemma ravel_bound sh : forall idx,
  in_range sh idx -> 0 <= ravel sh idx < numel sh.
Proof.
  induction sh as [|d ds IH]; intros [|i is_]; cbn; try tauto; try lia.
  intros [Hi H]. specialize (IH _ H). nia.
Qed.

Lemma unravel_ravel sh : forall idx,
  in_range sh idx -> unravel sh (ravel sh idx) = idx.
Proof.
  induction sh as [|d ds IH]; intros [|i is_]; cbn; try tauto.
  intros [Hi H]. pose proof (ravel_bound _ _ H) as Hb.
  rewrite Z.add_comm, Z.div_add, Z.mod_add by lia.
  rewrite Z.div_small, Z.mod_small by lia.
  cbn. f_equal. now apply IH.
Qed.

Lemma unravel_in_range sh : Forall (fun d => 0 <= d) sh -> forall x,
  0 <= x < numel sh -> in_range sh (unravel sh x).
Proof.
  induction 1 as [|d ds Hd Hds IH]; intros x Hx; cbn in *; [exact I|].
  pose proof (numel_nonneg _ Hds).
  assert (0 < numel ds) as Hpos by nia.
  split.
  - split; [apply Z.div_pos; lia|].
    apply Z.div_lt_upper_bound; [lia | nia].
  - apply IH. apply Z.mod_pos_bound. lia.
Qed.

Lemma ravel_unravel sh : Forall (fun d => 0 <= d) sh -> forall x,
  0 <= x < numel sh -> ravel sh (unravel sh x) = x.
Proof.
  induction 1 as [|d ds Hd Hds IH]; intros x Hx; cbn in *; [lia|].
  pose proof (numel_nonneg _ Hds).
  assert (0 < numel ds) as Hpos by nia.
  rewrite IH by (apply Z.mod_pos_bound; lia).
  pose proof (Z.div_mod x (numel ds)). lia.
Qed.

End ShapeFacts.

(** ** Tensor values *)

Section TensorFacts.

Context {A : Type} (zero : A).
Implicit Types (t : Tensor A) (sh idx : list Z).

Lemma tabulate_length n (f : Z -> A) : length (tabulate n f) = Z.to_nat n.
Proof. unfold tabulate. now rewrite length_map, length_seq. Qed.

Lemma nth_tabulate n (f : Z -> A) x :
  0 <= x < n -> nth (Z.to_nat x) (tabulate n f) zero = f x.
Proof.
  intros Hx. unfold tabulate.
  rewrite (nth_indep _ zero (f 0)) by (rewrite length_map, length_seq; lia).
  rewrite (map_nth (fun k => f (Z.of_nat k)) _ 0%nat).
  rewrite seq_nth by lia. cbn. now rewrite Z2Nat.id by lia.
Qed.

Lemma tabulate_ext n (f g : Z -> A) :
  (forall x, 0 <= x < n -> f x = g x) -> tabulate n f = tabulate n g.
Proof.
  intros H. unfold tabulate. apply map_ext_in.
  intros k Hk. apply in_seq in Hk. apply H. lia.
Qed.

Lemma gather_shape t sh src : shape (gather zero t sh src) = sh.
Proof. reflexivity. Qed.

Lemma gather_wf t sh src :
  Forall (fun d => 0 <= d) sh -> wf (gather zero t sh src).
Proof.
  intros H. split; [exact H|]. cbn.
  rewrite tabulate_length. pose proof (ShapeFacts.numel_nonneg _ H). lia.
Qed.

(** Reading a gathered tensor reads the source at the mapped index. *)
Lemma get_gather t sh src idx :
  Shape.in_range sh idx ->
  get zero (gather zero t sh src) idx = get zero t (src idx).
Proof.
  intros H. unfold get at 1, at_flat. cbn.
  rewrite nth_tabulate by now apply ShapeFacts.ravel_bound.
  now rewrite ShapeFacts.unravel_ravel.
Qed.

(** Two gathers agree when they read equal elements at every index. *)
Lemma gather_ext t1 t2 sh src1 src2 :
  Forall (fun d => 0 <= d) sh ->
  (forall idx, Shape.in_range sh idx ->
     get zero t1 (src1 idx) = get zero t2 (src2 idx)) ->
  gather zero t1 sh src1 = gather zero t2 sh src2.
Proof.
  intros Hsh H. unfold gather. f_equal. apply tabulate_ext.
  intros x Hx. apply H. now apply ShapeFacts.unravel_in_range.
Qed.

Lemma get_reshape t sh idx :
  Shape.in_range sh idx ->
  get zero (reshape_val zero t sh) idx = at_flat zero t (Shape.ravel sh idx).
Proof.
  intros H. unfold get at 1, at_flat at 1. cbn.
  now rewrite nth_tabulate by now apply ShapeFacts.ravel_bound.
Qed.

Lemma zeros_wf sh : Forall (fun d => 0 <= d) sh -> wf (zeros_val zero sh).
Proof.
  intros H. split; [exact H|]. cbn.
  rewrite tabulate_length. pose proof (ShapeFacts.numel_nonneg _ H). lia.
Qed.

End TensorFacts.

(** ** Running the primitives *)

Ltac decide_tests :=
  repeat match goal with
    | |- context [Z.eqb ?a ?b] =>
        first [ rewrite (proj2 (Z.eqb_eq a b)) by lia
              | rewrite (proj2 (Z.eqb_neq a b)) by lia ]
    | |- context [Z.leb ?a ?b] =>
        first [ rewrite (proj2 (Z.leb_le a b)) by lia
              | rewrite (proj2 (Z.leb_gt a b)) by lia ]
    | |- context [Z.ltb ?a ?b] =>
        first [ rewrite (proj2 (Z.ltb_lt a b)) by lia
              | rewrite (proj2 (Z.ltb_ge a b)) by lia ]
    end.

Section PrimitiveFacts.

Context {A : Type} (zero : A).
Implicit Types (s : store A) (t : Tensor A) (l : ref).

Lemma lookup_fresh s t : (s ++ [t]) !! length s = Some t.
Proof. now rewrite list_lookup_middle. Qed.

Lemma lookup_old s (ext : list (Tensor A)) l t :
  s !! l = Some t -> (s ++ ext) !! l = Some t.
Proof. intros H. now apply lookup_app_l_Some. Qed.

Lemma load_ok s l t : s !! l = Some t -> load l s = (Return t, s).
Proof. intros H. unfold load. now rewrite H. Qed.

Lemma Tensor_shape_ok s l t :
  s !! l = Some t -> Tensor_shape l s = (Return (shape t), s).
Proof. intros H. unfold Tensor_shape, bind. now rewrite (load_ok _ _ _ H). Qed.

Lemma torch_zeros_ok s sh :
  Forall (fun d => 0 <= d) sh ->
  torch_zeros zero sh s = (Return (length s), s ++ [zeros_val zero sh]).
Proof.
  intros H. unfold torch_zeros.
  assert (forallb (fun d => 0 <=? d) sh = true) as ->; [|reflexivity].
  apply forallb_forall. intros d Hd.
  rewrite Forall_forall in H. apply Z.leb_le, H. now apply list_elem_of_In.
Qed.

Lemma transpose_ok s l t d0 d1 :
  s !! l = Some t ->
  (d0 < length (shape t))%nat -> (d1 < length (shape t))%nat ->
  transpose zero l d0 d1 s
    = (Return (length s), s ++ [transpose_val zero t d0 d1]).
Proof.
  intros H H0 H1. unfold transpose, apply_op, transpose_op, bind.
  rewrite (load_ok _ _ _ H).
  assert ((d0 <? Nat.max 1 (length (shape t)))%nat = true) as ->
    by (apply Nat.ltb_lt; lia).
  assert ((d1 <? Nat.max 1 (length (shape t)))%nat = true) as ->
    by (apply Nat.ltb_lt; lia).
  reflexivity.
Qed.

Lemma reshape_ok s l t spec sh :
  s !! l = Some t ->
  infer_size spec (Shape.numel (shape t)) = inr sh ->
  reshape zero l spec s = (Return (length s), s ++ [reshape_val zero t sh]).
Proof.
  intros H Hi. unfold reshape, apply_op, reshape_op, bind.
  rewrite (load_ok _ _ _ H). now rewrite Hi.
Qed.

Lemma reshape_raise s l t spec e :
  s !! l = Some t ->
  infer_size spec (Shape.numel (shape t)) = inl e ->
  reshape zero l spec s = (Raise e, s).
Proof.
  intros H Hi. unfold reshape, apply_op, reshape_op, bind.
  rewrite (load_ok _ _ _ H). now rewrite Hi.
Qed.

Lemma repeat_ok s l t sizes :
  s !! l = Some t ->
  length sizes = length (shape t) ->
  Forall (fun n => 0 <= n) sizes ->
  repeat zero l sizes s
    = (Return (length s), s ++ [repeat_val zero t sizes]).
Proof.
  intros H Hlen Hs. unfold repeat, apply_op, repeat_op, bind.
  rewrite (load_ok _ _ _ H).
  rewrite Hlen, Nat.ltb_irrefl, Nat.sub_diag.
  assert (forallb (fun n => 0 <=? n) sizes = true) as ->.
  { apply forallb_forall. intros d Hd.
    rewrite Forall_forall in Hs. apply Z.leb_le, Hs.
    now apply list_elem_of_In. }
  cbn [replicate app]. now destruct t.
Qed.

(** *** Size inference on the two patterns the method uses *)

Lemma infer_size_flatten a b c :
  0 < a -> 0 < b -> 0 <= c ->
  infer_size [a; b; -1] (a * b * c) = inr [a; b; c].
Proof.
  intros Ha Hb Hc. unfold infer_size. cbn [infer_scan].
  assert (0 < 1 * a * b) by nia.
  decide_tests. cbv beta iota.
  replace (a * b * c) with (c * (1 * a * b)) by ring.
  rewrite Z.mod_mul, Z.div_mul by lia.
  decide_tests. now rewrite orb_true_r.
Qed.

Lemma infer_size_empty a c :
  0 < a -> 0 <= c ->
  infer_size [a; 0; -1] (a * 0 * c)
    = inl (RuntimeError
        "cannot reshape tensor of 0 elements: the unspecified dimension size -1 is ambiguous").
Proof.
  intros Ha Hc. unfold infer_size. cbn [infer_scan].
  decide_tests. cbv beta iota.
  replace (a * 0 * c) with 0 by ring.
  replace (1 * a * 0) with 0 by ring.
  reflexivity.
Qed.

Lemma infer_size_unflatten o h w n :
  0 < o -> 0 < h -> 0 < w ->
  n mod (o * h * w) = 0 ->
  infer_size [-1; o; h; w] n = inr [n / (o * h * w); o; h; w].
Proof.
  intros Ho Hh Hw Hn. unfold infer_size. cbn [infer_scan].
  assert (0 < o * h * w) by nia.
  decide_tests. cbv beta iota.
  replace (1 * o * h * w) with (o * h * w) by ring.
  rewrite Hn. decide_tests. now rewrite orb_true_r.
Qed.

Lemma infer_size_mismatch o h w n :
  0 < o -> 0 < h -> 0 < w ->
  n mod (o * h * w) <> 0 ->
  infer_size [-1; o; h; w] n
    = inl (RuntimeError "shape is invalid for input size").
Proof.
  intros Ho Hh Hw Hn. unfold infer_size. cbn [infer_scan].
  assert (0 < o * h * w) by nia.
  decide_tests. cbv beta iota.
  replace (1 * o * h * w) with (o * h * w) by ring.
  assert (n <> o * h * w).
  { intros ->. now rewrite Z.mod_same in Hn by lia. }
  decide_tests. now rewrite andb_false_r.
Qed.

End PrimitiveFacts.

(** ** Running [icnr_initialization] on a four-axis tensor *)

Section MonadFacts.

Context {A : Type}.

Lemma bind_ok {X Y} (m : M (A:=A) X) (k : X -> M Y) s x s' :
  m s = (Return x, s') -> bind m k s = k x s'.
Proof. intros H. unfold bind. now rewrite H. Qed.

Lemma bind_raise {X Y} (m : M (A:=A) X) (k : X -> M Y) s e s' :
  m s = (Raise e, s') -> bind m k s = (Raise e, s').
Proof. intros H. unfold bind. now rewrite H. Qed.

Lemma bind_ret {X Y} (x : X) (k : X -> M (A:=A) Y) s :
  bind (ret x) k s = k x s.
Proof. reflexivity. Qed.

End MonadFacts.

Ltac step H := rewrite (bind_ok _ _ _ _ _ H); cbv beta.

Section IcnrRun.

Context {A : Type} (zero : A).
Variables (self : Conv2dPixelShuffle (A:=A)) (l l1 : ref).
Variables (s s1 : store A) (t t2 sub : Tensor A).
Variables (O I kH kW : Z).

Let r := upscale_factor (upsample self).
Let q := O / (r * r).

Hypothesis Hr1 : r <> 1.
Hypothesis Hr0 : r <> 0.
Hypothesis HO : 0 <= O.
Hypothesis HI : 0 < I.
Hypothesis HkH : 0 < kH.
Hypothesis HkW : 0 < kW.

(** The tensor to initialize. *)
Hypothesis Hl : s !! l = Some t.
Hypothesis Hshape : shape t = [O; I; kH; kW].

(** The call of the base initializer on the zero-filled tensor. *)
Hypothesis Hinit :
  initializer self (length s) (s ++ [zeros_val zero [q; I; kH; kW]])
    = (Return l1, s1).
Hypothesis Hsub : s1 !! l1 = Some sub.
Hypothesis Hsubshape : shape sub = [q; I; kH; kW].
Hypothesis Hl2 : s1 !! l = Some t2.
Hypothesis Hshape2 : shape t2 = [O; I; kH; kW].

Let v1 := transpose_val zero sub 0 1.
Let v2 := reshape_val zero v1 [I; q; kH * kW].
Let v3 := repeat_val zero v2 [1; 1; r * r].
Let s3 := ((s1 ++ [v1]) ++ [v2]) ++ [v3].

Lemma q_nonneg : 0 <= q.
Proof. apply Z.div_pos; [lia | nia]. Qed.

(** Up to the first [reshape]. *)
Lemma icnr_run_to_flatten :
  icnr_initialization zero self l s =
  (let* flat := reshape zero (length s1) [I; q; -1] in
   let* kernel := repeat zero flat [1; 1; r * r] in
   let* tshape' := Tensor_shape l in
   let* o' := getitem tshape' 0 in
   let* shaped := reshape zero kernel ([-1; o'] ++ drop 2 tshape') in
   transpose zero shaped 0 1) (s1 ++ [v1]).
Proof.
  pose proof q_nonneg as Hq.
  unfold icnr_initialization. fold r.
  rewrite (proj2 (Z.eqb_neq r 1) Hr1), !Z.pow_2_r.
  step (Tensor_shape_ok s l t Hl). rewrite Hshape.
  cbn [getitem lookup list_lookup]. rewrite bind_ret.
  unfold int_truediv.
  assert (0 < r * r) as Hrr by nia.
  rewrite (proj2 (Z.eqb_neq (r * r) 0)) by lia.
  rewrite bind_ret, Z.quot_div_nonneg by lia. fold q.
  cbn [drop app].
  erewrite bind_ok by (apply torch_zeros_ok; repeat constructor; lia).
  cbv beta. step Hinit.
  erewrite bind_ok
    by (apply transpose_ok; [exact Hsub | rewrite Hsubshape; cbn; lia ..]).
  cbv beta. fold v1.
  step (Tensor_shape_ok _ _ _ (lookup_fresh s1 v1)).
  unfold v1 at 1 2. cbn [transpose_val gather shape]. rewrite Hsubshape.
  cbn. reflexivity.
Qed.

(** When the reduced channel count is zero the first [reshape] cannot
    resolve its [-1]. *)
Lemma icnr_run_empty :
  q = 0 ->
  icnr_initialization zero self l s =
  (Raise (RuntimeError
     "cannot reshape tensor of 0 elements: the unspecified dimension size -1 is ambiguous"),
   s1 ++ [v1]).
Proof.
  intros Hq0. rewrite icnr_run_to_flatten.
  apply bind_raise. eapply reshape_raise; [apply lookup_fresh|].
  unfold v1. cbn [transpose_val gather shape]. rewrite Hsubshape, Hq0.
  cbn [Shape.swap lookup list_lookup insert list_insert Shape.numel].
  replace (I * (0 * (kH * (kW * 1)))) with (I * 0 * (kH * kW)) by ring.
  apply infer_size_empty; nia.
Qed.

(** Up to the second [reshape]. *)
Lemma icnr_run_to_unflatten :
  0 < q ->
  icnr_initialization zero self l s =
  (let* shaped := reshape zero (length ((s1 ++ [v1]) ++ [v2]))
                    [-1; O; kH; kW] in
   transpose zero shaped 0 1) s3.
Proof.
  intros Hq. rewrite icnr_run_to_flatten.
  assert (infer_size [I; q; -1] (Shape.numel (shape v1))
          = inr [I; q; kH * kW]) as Hflat.
  { unfold v1. cbn [transpose_val gather shape]. rewrite Hsubshape.
    cbn [Shape.swap lookup list_lookup insert list_insert Shape.numel].
    replace (I * (q * (kH * (kW * 1)))) with (I * q * (kH * kW)) by ring.
    apply infer_size_flatten; nia. }
  step (reshape_ok zero _ _ _ _ _ (lookup_fresh s1 v1) Hflat). fold v2.
  assert (Forall (fun n => 0 <= n) [1; 1; r * r]) as Hsizes
    by (repeat constructor; nia).
  step (repeat_ok zero _ _ _ [1; 1; r * r] (lookup_fresh (s1 ++ [v1]) v2)
          eq_refl Hsizes).
  fold v3. fold s3.
  assert (s3 !! l = Some t2) as Hl3 by (unfold s3; now repeat apply lookup_old).
  step (Tensor_shape_ok s3 l t2 Hl3). rewrite Hshape2.
  reflexivity.
Qed.

Lemma numel_kernel :
  Shape.numel (shape v3) = I * q * (kH * kW) * (r * r).
Proof. cbn. ring. Qed.

(** The kernel fits the requested shape: the method returns. *)
Lemma icnr_run_fits :
  0 < q -> 0 < O ->
  (I * q * (kH * kW) * (r * r)) mod (O * kH * kW) = 0 ->
  icnr_initialization zero self l s =
  (Return (length (s3 ++ [reshape_val zero v3
             [I * q * (kH * kW) * (r * r) / (O * kH * kW); O; kH; kW]])),
   (s3 ++ [reshape_val zero v3
             [I * q * (kH * kW) * (r * r) / (O * kH * kW); O; kH; kW]])
     ++ [icnr_reference_steps zero sub O I kH kW r]).
Proof.
  intros Hq HO' Hfit. rewrite icnr_run_to_unflatten by exact Hq.
  assert (s3 !! length ((s1 ++ [v1]) ++ [v2]) = Some v3) as Hk
    by apply lookup_fresh.
  rewrite <- numel_kernel in Hfit.
  step (reshape_ok zero _ _ _ _ _ Hk
          (infer_size_unflatten O kH kW _ HO' HkH HkW Hfit)).
  rewrite numel_kernel.
  rewrite (transpose_ok zero _ _ _ 0 1 (lookup_fresh _ _)) by (cbn; lia).
  unfold icnr_reference_steps. cbv zeta. fold q v1 v2 v3.
  now rewrite numel_kernel.
Qed.

(** The kernel does not fit: the second [reshape] raises. *)
Lemma icnr_run_misfit :
  0 < q -> 0 < O ->
  (I * q * (kH * kW) * (r * r)) mod (O * kH * kW) <> 0 ->
  icnr_initialization zero self l s =
  (Raise (RuntimeError "shape is invalid for input size"), s3).
Proof.
  intros Hq HO' Hfit. rewrite icnr_run_to_unflatten by exact Hq.
  apply bind_raise.
  eapply reshape_raise; [apply lookup_fresh|].
  apply infer_size_mismatch; try lia.
  fold v3. now rewrite numel_kernel.
Qed.

End IcnrRun.

(** ** The value computed by the reshaping chain *)

Section ReferenceFacts.

Context {A : Type} (zero : A).
Variables (sub : Tensor A) (O I kH kW r : Z).

Let R := r * r.
Let q := O / R.
Let K := kH * kW.

Hypothesis HR : 0 < R.
Hypothesis Hq : 0 < q.
Hypothesis HI : 0 < I.
Hypothesis HkH : 0 < kH.
Hypothesis HkW : 0 < kW.
Hypothesis Hdiv : O = q * R.
Hypothesis Hsubshape : shape sub = [q; I; kH; kW].

Let res := icnr_reference_steps zero sub O I kH kW r.

Lemma reference_first_axis :
  I * q * (kH * kW) * (r * r) / (O * kH * kW) = I.
Proof.
  fold R. rewrite Hdiv.
  replace (I * q * (kH * kW) * R) with (I * (q * R * kH * kW)) by ring.
  apply Z.div_mul. nia.
Qed.

Lemma reference_fits :
  (I * q * (kH * kW) * (r * r)) mod (O * kH * kW) = 0.
Proof.
  fold R. rewrite Hdiv.
  replace (I * q * (kH * kW) * R) with (I * (q * R * kH * kW)) by ring.
  apply Z.mod_mul. nia.
Qed.

Lemma reference_shape : shape res = [O; I; kH; kW].
Proof.
  unfold res, icnr_reference_steps. cbv zeta.
  cbn [transpose_val gather shape reshape_val repeat_val].
  cbn [Shape.swap lookup list_lookup insert list_insert Shape.scale
       Shape.numel].
  fold R. fold q.
  replace (I * 1 * (q * 1 * (kH * kW * R * 1)))
    with (I * q * (kH * kW) * (r * r)) by (unfold R; ring).
  now rewrite reference_first_axis.
Qed.

(** Element [[o; i; h; w]] of the result is element
    [[o / r²; i; h; w]] of the sub-kernel. *)
Lemma reference_get o i h w :
  Shape.in_range [O; I; kH; kW] [o; i; h; w] ->
  get zero res [o; i; h; w] = get zero sub [o / R; i; h; w].
Proof.
  cbn [Shape.in_range]. intros (Ho & Hi & Hh & Hw & _).
  pose proof (Z.div_mod o R ltac:(lia)) as Hom.
  pose proof (Z.mod_pos_bound o R HR) as Hm.
  assert (0 <= o / R < q) as Hn.
  { split; [apply Z.div_pos; lia|].
    apply Z.div_lt_upper_bound; [lia | nia]. }
  set (n := o / R) in *. set (m := o mod R) in *.
  assert (0 <= h * kW + w < K) as Hu by (unfold K; nia).
  assert (0 <= m * K + (h * kW + w) < K * R) as HT by nia.
  unfold res, icnr_reference_steps. cbv zeta. fold R q K.
  set (t3 := transpose_val zero sub 0 1).
  set (t4 := reshape_val zero t3 [I; q; K]).
  set (t5 := repeat_val zero t4 [1; 1; R]).
  assert (shape t5 = [I * 1; q * 1; K * R]) as Hs5 by reflexivity.
  assert (shape t3 = [I; q; kH; kW]) as Hs3.
  { unfold t3. cbn [transpose_val gather shape]. now rewrite Hsubshape. }
  assert (Shape.numel (shape t5) / (O * kH * kW) = I) as ->.
  { rewrite Hs5. cbn [Shape.numel].
    replace (I * 1 * (q * 1 * (K * R * 1)))
      with (I * q * (kH * kW) * (r * r)) by (unfold K, R; ring).
    apply reference_first_axis. }
  set (t6 := reshape_val zero t5 [I; O; kH; kW]).
  (* the final transposition *)
  unfold transpose_val at 1. rewrite get_gather.
  2:{ cbn. lia. }
  cbn [Shape.swap lookup list_lookup insert list_insert].
  (* the second reshape *)
  unfold t6. rewrite get_reshape by (cbn; lia).
  (* the tiling *)
  transitivity (get zero t5 [i; n; m * K + (h * kW + w)]).
  { unfold get. f_equal. rewrite Hs5. cbn [Shape.ravel Shape.numel].
    rewrite Hdiv, Hom. unfold K. ring. }
  unfold t5 at 1, repeat_val. rewrite get_gather.
  2:{ fold (repeat_val zero t4 [1; 1; R]). fold t5. cbn [shape t4 reshape_val Shape.scale].
      cbn. lia. }
  cbn [shape t4 reshape_val Shape.wrap].
  rewrite (Z.mod_small i I), (Z.mod_small n q) by lia.
  rewrite (Z.add_comm (m * K)), Z.mod_add, Z.mod_small by lia.
  (* the first reshape *)
  unfold t4. rewrite get_reshape by (cbn; lia).
  (* the first transposition *)
  transitivity (get zero t3 [i; n; h; w]).
  { unfold get. f_equal. rewrite Hs3. cbn [Shape.ravel Shape.numel].
    unfold K. ring. }
  unfold t3, transpose_val. rewrite get_gather.
  2:{ rewrite Hsubshape. cbn. lia. }
  reflexivity.
Qed.

(** Slice [o] of the result is slice [o / r²] of the sub-kernel. *)
Lemma reference_select o :
  0 <= o < O ->
  select0 zero res o = select0 zero sub (o / R).
Proof.
  intros Ho. unfold select0. rewrite reference_shape, Hsubshape.
  cbn [tail]. apply gather_ext.
  { repeat constructor; lia. }
  intros [|i [|h [|w [|? ?]]]]; cbn [Shape.in_range]; try tauto.
  intros (Hi & Hh & Hw & _).
  apply reference_get. cbn. lia.
Qed.

End ReferenceFacts.

Section ReferenceShape.

Context {A : Type} (zero : A).

(** The shape of the result, whatever the channel count. *)
Lemma reference_shape_any (sub : Tensor A) O I kH kW r :
  shape (icnr_reference_steps zero sub O I kH kW r)
    = [O; I * (O / (r * r)) * (kH * kW) * (r * r) / (O * kH * kW); kH; kW].
Proof.
  unfold icnr_reference_steps. cbv zeta.
  cbn [transpose_val gather shape reshape_val repeat_val].
  cbn [Shape.swap lookup list_lookup insert list_insert Shape.scale
       Shape.numel].
  do 3 f_equal. ring.
Qed.

End ReferenceShape.

(** ** The sample initializers meet the contract *)

Section InitializerFacts.

Context {A : Type}.
Variable g : list Z -> Z -> A.

Lemma fill_in_place_run (s : store A) l t :
  s !! l = Some t ->
  fill_in_place g l s = (Return l, <[l := filled g (shape t)]> s).
Proof.
  intros H. unfold fill_in_place, bind. now rewrite (load_ok _ _ _ H).
Qed.

Lemma fill_in_place_shape_preserving : shape_preserving (fill_in_place g).
Proof.
  intros s l t H _. exists l, (<[l := filled g (shape t)]> s), (filled g (shape t)).
  split; [now apply fill_in_place_run|]. split; [|reflexivity].
  apply list_lookup_insert_eq. now apply lookup_lt_Some in H.
Qed.

Lemma fill_in_place_argument_local : argument_local (fill_in_place g).
Proof.
  intros s l k Hk _. unfold fill_in_place, bind, load.
  destruct (s !! l) as [t|]; cbn; [|reflexivity].
  now apply list_lookup_insert_ne.
Qed.

Lemma fill_in_place_deterministic : deterministic (fill_in_place g).
Proof.
  intros s1 l1 s2 l2 t H1 H2.
  rewrite (fill_in_place_run _ _ _ H1), (fill_in_place_run _ _ _ H2). cbn.
  rewrite !list_lookup_insert_eq; [reflexivity | ..];
    eapply lookup_lt_Some; eassumption.
Qed.

Lemma fill_fresh_run (s : store A) l t :
  s !! l = Some t ->
  fill_fresh g l s = (Return (length s), s ++ [filled g (shape t)]).
Proof.
  intros H. unfold fill_fresh, bind. now rewrite (load_ok _ _ _ H).
Qed.

Lemma fill_fresh_shape_preserving : shape_preserving (fill_fresh g).
Proof.
  intros s l t H _. eexists _, _, _.
  split; [eapply fill_fresh_run; eassumption|].
  split; [apply lookup_fresh | reflexivity].
Qed.

Lemma fill_fresh_side_effect_free : side_effect_free (fill_fresh g).
Proof.
  intros s l k v Hk. unfold fill_fresh, bind, load.
  destruct (s !! l) as [t|]; cbn; [|exact Hk].
  now apply lookup_old.
Qed.

Lemma fill_fresh_deterministic : deterministic (fill_fresh g).
Proof.
  intros s1 l1 s2 l2 t H1 H2.
  rewrite (fill_fresh_run _ _ _ H1), (fill_fresh_run _ _ _ H2). cbn.
  now rewrite !lookup_fresh.
Qed.

Lemma side_effect_free_local (f : ref -> M (A:=A) ref) :
  side_effect_free f -> argument_local f.
Proof.
  intros Hf s l k _ Hk.
  destruct (lookup_lt_is_Some_2 s k Hk) as [v Hv].
  rewrite Hv. now apply Hf.
Qed.

End InitializerFacts.

(** ** Which tensors a computation leaves alone *)

Section Frame.

Context {A : Type} (zero : A).
Variables (k : ref) (v : Tensor A).
Local Abbreviation any := (fun _ => True).

Lemma keeps_ret {X} (x : X) (P : X -> Prop) : P x -> keeps k v (ret x) P.
Proof. intros HP s Hs. now split. Qed.

Lemma keeps_raise {X} e (P : X -> Prop) : keeps k v (raise e) P.
Proof. intros s Hs. now split. Qed.

Lemma keeps_bind {X Y} (m : M (A:=A) X) (kont : X -> M Y) P Q :
  keeps k v m P -> (forall x, P x -> keeps k v (kont x) Q) ->
  keeps k v (bind m kont) Q.
Proof.
  intros Hm Hk s Hs. specialize (Hm s Hs). unfold bind.
  destruct (m s) as [[x|e] s']; cbn in Hm; destruct Hm as [Hs' HP].
  - now apply Hk.
  - now split.
Qed.

Lemma keeps_load l : keeps k v (load (A:=A) l) any.
Proof.
  intros s Hs. unfold load. destruct (s !! l); now split.
Qed.

(** A new tensor object is none of the existing ones. *)
Lemma keeps_alloc t : keeps k v (alloc t) (fun z => z <> k).
Proof.
  intros s Hs. cbn. split; [now apply lookup_old|].
  apply lookup_lt_Some in Hs. lia.
Qed.

Lemma keeps_weaken {X} (m : M (A:=A) X) (P Q : X -> Prop) :
  keeps k v m P -> (forall x, P x -> Q x) -> keeps k v m Q.
Proof.
  intros Hm HPQ s Hs. destruct (Hm s Hs) as [H1 H2]. split; [exact H1|].
  destruct (m s).1; auto.
Qed.

Lemma keeps_apply_op op l : keeps k v (apply_op (A:=A) op l) any.
Proof.
  unfold apply_op. eapply keeps_bind; [apply keeps_load|].
  intros t _. destruct (op t).
  - apply keeps_raise.
  - eapply keeps_weaken; [apply keeps_alloc | auto].
Qed.

Lemma keeps_Tensor_shape l : keeps k v (Tensor_shape (A:=A) l) any.
Proof.
  unfold Tensor_shape. eapply keeps_bind; [apply keeps_load|].
  intros t _. now apply keeps_ret.
Qed.

Lemma keeps_getitem sh i : keeps k v (getitem (A:=A) sh i) any.
Proof.
  unfold getitem. destruct (sh !! i); [now apply keeps_ret | apply keeps_raise].
Qed.

Lemma keeps_int_truediv a b : keeps k v (int_truediv (A:=A) a b) any.
Proof.
  unfold int_truediv. destruct (b =? 0); [apply keeps_raise | now apply keeps_ret].
Qed.

Lemma keeps_torch_zeros sh : keeps k v (torch_zeros zero sh) (fun z => z <> k).
Proof.
  unfold torch_zeros. destruct (forallb _ sh); [apply keeps_alloc | apply keeps_raise].
Qed.

(** The method writes to an existing tensor only through the base
    initializer, which it calls on the tensor it was given when the
    upscale factor is 1 and on a new tensor otherwise. *)
Lemma keeps_icnr self l :
  (upscale_factor (upsample self) = 1 -> keeps k v (initializer self l) any) ->
  (forall z, z <> k -> keeps k v (initializer self z) any) ->
  keeps k v (icnr_initialization zero self l) any.
Proof.
  intros H1 H2. unfold icnr_initialization.
  destruct (Z.eqb_spec (upscale_factor (upsample self)) 1) as [E|_];
    [now apply H1|].
  eapply keeps_bind; [apply keeps_Tensor_shape|]. intros tshape _.
  eapply keeps_bind; [apply keeps_getitem|]. intros o _.
  eapply keeps_bind; [apply keeps_int_truediv|]. intros q _.
  eapply keeps_bind; [apply keeps_torch_zeros|]. intros z Hz.
  eapply keeps_bind; [now apply H2|]. intros filled_ _.
  eapply keeps_bind; [apply keeps_apply_op|]. intros subkernel _.
  eapply keeps_bind; [apply keeps_Tensor_shape|]. intros sshape _.
  eapply keeps_bind; [apply keeps_getitem|]. intros s0 _.
  eapply keeps_bind; [apply keeps_getitem|]. intros s1 _.
  eapply keeps_bind; [apply keeps_apply_op|]. intros flat _.
  eapply keeps_bind; [apply keeps_apply_op|]. intros kernel _.
  eapply keeps_bind; [apply keeps_Tensor_shape|]. intros tshape' _.
  eapply keeps_bind; [apply keeps_getitem|]. intros o' _.
  eapply keeps_bind; [apply keeps_apply_op|]. intros shaped _.
  apply keeps_apply_op.
Qed.

Lemma keeps_side_effect_free f l :
  side_effect_free f -> keeps k v (f l) any.
Proof.
  intros Hf s Hs. split; [now apply Hf|]. now destruct (f l s).1.
Qed.

Lemma keeps_argument_local f l :
  argument_local f -> l <> k -> keeps k v (f l) any.
Proof.
  intros Hf Hl s Hs. split; [|now destruct (f l s).1].
  rewrite Hf; [exact Hs | congruence | now apply lookup_lt_Some in Hs].
Qed.

End Frame.

(** ** The claims about [icnr_initialization] *)

Section IcnrClaims.

Context {A : Type} (zero : A).
Implicit Types (self : Conv2dPixelShuffle (A:=A)) (s : store A).

(** What the contract gives for the one call the method makes: the base
    initializer, run on the new zero-filled tensor, returns a tensor of
    that shape and leaves the tensor to initialize alone. *)
Lemma contract_call (f : ref -> M (A:=A) ref) s l t sh :
  shape_preserving f -> argument_local f ->
  s !! l = Some t -> Forall (fun d => 0 <= d) sh ->
  exists l1 s1 sub,
    f (length s) (s ++ [zeros_val zero sh]) = (Return l1, s1) /\
    s1 !! l1 = Some sub /\ shape sub = sh /\ s1 !! l = Some t.
Proof.
  intros Hsp Hloc Hl Hsh.
  destruct (Hsp (s ++ [zeros_val zero sh]) (length s) (zeros_val zero sh))
    as (l1 & s1 & sub & Hrun & Hsub & Hshape).
  { apply lookup_fresh. }
  { now apply zeros_wf. }
  exists l1, s1, sub. repeat split; try assumption.
  pose proof (lookup_lt_Some _ _ _ Hl) as Hlt.
  specialize (Hloc (s ++ [zeros_val zero sh]) (length s) l).
  rewrite Hrun in Hloc. cbn in Hloc. rewrite Hloc.
  - now apply lookup_old.
  - lia.
  - rewrite length_app. cbn. lia.
Qed.

(** On a tensor whose channel count is a multiple of r², the method
    returns the result of the reference steps. *)
Lemma icnr_divisible_run self s l t O I kH kW :
  let r := upscale_factor (upsample self) in
  r <> 1 ->
  shape_preserving (initializer self) -> argument_local (initializer self) ->
  s !! l = Some t -> shape t = [O; I; kH; kW] ->
  0 < O -> 0 < I -> 0 < kH -> 0 < kW -> (r * r | O) ->
  exists sub s1 l' s',
    subkernel_of zero (initializer self) s O I kH kW r sub s1 /\
    shape sub = [O / (r * r); I; kH; kW] /\
    0 < r * r /\ 0 < O / (r * r) /\ O = O / (r * r) * (r * r) /\
    icnr_initialization zero self l s = (Return l', s') /\
    s' !! l' = Some (icnr_reference_steps zero sub O I kH kW r).
Proof.
  intros r Hr1 Hsp Hloc Hl Hshape HO HI HkH HkW [c Hc].
  assert (r <> 0) as Hr0 by (intros E; rewrite E in Hc; lia).
  assert (0 < r * r) as HR by nia.
  assert (O / (r * r) = c) as Hq by (rewrite Hc; now apply Z.div_mul; lia).
  assert (0 < c) as Hcpos by nia.
  destruct (contract_call (initializer self) s l t [O / (r * r); I; kH; kW]
              Hsp Hloc Hl) as (l1 & s1 & sub & Hrun & Hsub & Hsubshape & Hl2).
  { rewrite Hq. repeat constructor; lia. }
  exists sub, s1. eexists _, _.
  split; [now exists l1|]. split; [exact Hsubshape|].
  split; [exact HR|]. split; [lia|]. split; [lia|].
  split.
  - eapply (icnr_run_fits zero self l l1 s s1 t t sub O I kH kW);
      fold r; try eassumption; try lia.
    apply reference_fits; lia.
  - apply lookup_fresh.
Qed.

(** With upscale factor 1 a built module hands the tensor to its base
    initializer. *)
Lemma icnr_at_factor_one w f l :
  icnr_initialization zero (built w 1 f) l = f l.
Proof. reflexivity. Qed.

(** C4. Identity case: when the upscale factor is 1 the method is a
    direct call of the base initializer on the tensor it was given, for
    every tensor, every store and every base initializer; nothing is
    reshaped. *)
Theorem icnr_identity_case self tensor :
  upscale_factor (upsample self) = 1 ->
  icnr_initialization zero self tensor = initializer self tensor.
Proof.
  intros Hr. unfold icnr_initialization. now rewrite Hr.
Qed.

(** C6. Shape preservation: for a tensor of shape [O; I; kH; kW] and an
    upscale factor r with r² dividing O, and a base initializer that meets
    its contract, the method returns a tensor of the same shape as the
    tensor it was given. *)
Theorem icnr_preserves_shape w r f s l t O I kH kW :
  shape_preserving f -> argument_local f ->
  s !! l = Some t -> wf t -> shape t = [O; I; kH; kW] ->
  0 < O -> 0 < I -> 0 < kH -> 0 < kW -> (r * r | O) ->
  exists l' s' t',
    icnr_initialization zero (built w r f) l s = (Return l', s') /\
    s' !! l' = Some t' /\ shape t' = shape t.
Proof.
  intros Hsp Hloc Hl Hwf Hshape HO HI HkH HkW Hdiv.
  destruct (Z.eq_dec r 1) as [->|Hr1].
  - rewrite icnr_at_factor_one. now apply Hsp.
  - destruct (icnr_divisible_run (built w r f) s l t O I kH kW Hr1 Hsp Hloc
                Hl Hshape HO HI HkH HkW Hdiv)
      as (sub & s1 & l' & s' & _ & Hsub & HR & Hq & HOq & Hrun & Hres).
    cbn [built upsample upscale_factor initializer] in *.
    eexists _, _, _. split; [exact Hrun|]. split; [exact Hres|].
    rewrite Hshape. now apply reference_shape.
Qed.

(** C2. Uniformity: for r > 1 and a tensor of shape [O; I; kH; kW] with
    r² dividing O, the method returns a tensor of that shape in which any
    two slices along the output-channel axis that lie in the same
    contiguous block of r² channels are equal. *)
Theorem icnr_uniform_blocks w r f s l t O I kH kW :
  1 < r ->
  shape_preserving f -> argument_local f ->
  s !! l = Some t -> shape t = [O; I; kH; kW] ->
  0 < O -> 0 < I -> 0 < kH -> 0 < kW -> (r * r | O) ->
  exists l' s' t',
    icnr_initialization zero (built w r f) l s = (Return l', s') /\
    s' !! l' = Some t' /\ shape t' = [O; I; kH; kW] /\
    forall o1 o2,
      0 <= o1 < O -> 0 <= o2 < O -> o1 / (r * r) = o2 / (r * r) ->
      select0 zero t' o1 = select0 zero t' o2.
Proof.
  intros Hr Hsp Hloc Hl Hshape HO HI HkH HkW Hdiv.
  assert (r <> 1) as Hr1 by lia.
  destruct (icnr_divisible_run (built w r f) s l t O I kH kW Hr1 Hsp Hloc
              Hl Hshape HO HI HkH HkW Hdiv)
    as (sub & s1 & l' & s' & _ & Hsub & HR & Hq & HOq & Hrun & Hres).
  cbn [built upsample upscale_factor initializer] in *.
  eexists _, _, _. split; [exact Hrun|]. split; [exact Hres|].
  split; [now apply reference_shape|].
  intros o1 o2 Ho1 Ho2 Hblock.
  rewrite !reference_select by assumption.
  now rewrite Hblock.
Qed.

(** C3. Refinement: for r > 1 and a tensor of shape [O; I; kH; kW] with
    r² dividing O, the method returns exactly the tensor that the
    reference steps of the specification compute from the sub-kernel,
    the sub-kernel being what the base initializer makes of a zero-filled
    tensor of shape [O / r²; I; kH; kW]. *)
Theorem icnr_refines_reference w r f s l t O I kH kW :
  1 < r ->
  shape_preserving f -> argument_local f ->
  s !! l = Some t -> shape t = [O; I; kH; kW] ->
  0 < O -> 0 < I -> 0 < kH -> 0 < kW -> (r * r | O) ->
  exists sub s1 l' s',
    subkernel_of zero f s O I kH kW r sub s1 /\
    shape sub = [O / (r * r); I; kH; kW] /\
    icnr_initialization zero (built w r f) l s = (Return l', s') /\
    s' !! l' = Some (icnr_reference_steps zero sub O I kH kW r).
Proof.
  intros Hr Hsp Hloc Hl Hshape HO HI HkH HkW Hdiv.
  assert (r <> 1) as Hr1 by lia.
  destruct (icnr_divisible_run (built w r f) s l t O I kH kW Hr1 Hsp Hloc
              Hl Hshape HO HI HkH HkW Hdiv)
    as (sub & s1 & l' & s' & Hstep2 & Hsub & _ & _ & _ & Hrun & Hres).
  cbn [built upsample upscale_factor initializer] in *.
  exists sub, s1, l', s'. auto.
Qed.

(** C7, as the code has it.  For r > 1 and a tensor of shape
    [O; I; kH; kW] with positive dimensions whose channel count O is not
    divisible by r², the method validates nothing and the reduced channel
    count O / r² is truncated.  What happens next is decided by [reshape]: when
    r² <= O and O divides I * (O / r²) * r², the call returns a tensor of
    shape [O; I * (O / r²) * r² / O; kH; kW], which has fewer elements
    than the tensor it was given; otherwise a [reshape] raises
    RuntimeError. *)
Theorem icnr_indivisible w r f s l t O I kH kW :
  1 < r ->
  shape_preserving f -> argument_local f ->
  s !! l = Some t -> shape t = [O; I; kH; kW] ->
  0 < O -> 0 < I -> 0 < kH -> 0 < kW -> ~ (r * r | O) ->
  if (r * r <=? O) && (I * (O / (r * r)) * (r * r) mod O =? 0)
  then exists l' s' t',
         icnr_initialization zero (built w r f) l s = (Return l', s') /\
         s' !! l' = Some t' /\
         shape t' = [O; I * (O / (r * r)) * (r * r) / O; kH; kW] /\
         Shape.numel (shape t') < Shape.numel (shape t)
  else exists msg s',
         icnr_initialization zero (built w r f) l s
           = (Raise (RuntimeError msg), s').
Proof.
  intros Hr Hsp Hloc Hl Hshape HO HI HkH HkW Hndiv.
  assert (0 < r * r) as HR by nia.
  set (q := O / (r * r)).
  assert (0 <= q) as Hq0 by (apply Z.div_pos; lia).
  pose proof (Z.div_mod O (r * r) ltac:(lia)) as HOq. fold q in HOq.
  pose proof (Z.mod_pos_bound O (r * r) HR) as Hm.
  assert (O mod (r * r) <> 0) as Hm0.
  { intros E. apply Hndiv. apply Z.mod_divide; [lia | exact E]. }
  destruct (contract_call f s l t [q; I; kH; kW] Hsp Hloc Hl)
    as (l1 & s1 & sub & Hrun & Hsub & Hsubshape & Hl2).
  { repeat constructor; lia. }
  assert ((I * q * (kH * kW) * (r * r)) mod (O * kH * kW)
          = (I * q * (r * r)) mod O * (kH * kW)) as Hmod.
  { replace (I * q * (kH * kW) * (r * r)) with (I * q * (r * r) * (kH * kW))
      by ring.
    replace (O * kH * kW) with (O * (kH * kW)) by ring.
    apply Z.mul_mod_distr_r; nia. }
  destruct (Z.leb_spec (r * r) O) as [Hle|Hlt]; cbn [andb].
  - assert (0 < q) as Hq by nia.
    destruct (Z.eqb_spec (I * q * (r * r) mod O) 0) as [Hfit|Hmis].
    + eexists _, _, _. split.
      { eapply (icnr_run_fits zero (built w r f) l l1 s s1 t t sub O I kH kW);
          cbn [built upsample upscale_factor initializer];
          try eassumption; try lia.
        fold q. rewrite Hmod, Hfit. reflexivity. }
      split; [apply lookup_fresh|].
      cbn [built upsample upscale_factor].
      rewrite reference_shape_any. fold q.
      assert (I * q * (kH * kW) * (r * r) / (O * kH * kW)
              = I * q * (r * r) / O) as ->.
      { replace (I * q * (kH * kW) * (r * r))
          with (I * q * (r * r) * (kH * kW)) by ring.
        replace (O * kH * kW) with (O * (kH * kW)) by ring.
        apply Z.div_mul_cancel_r; nia. }
      split; [reflexivity|].
      rewrite Hshape. cbn [Shape.numel].
      pose proof (Z.div_mod (I * q * (r * r)) O ltac:(lia)) as Hx.
      rewrite Hfit in Hx.
      set (x := I * q * (r * r) / O) in *.
      assert (0 < kH * kW) by nia.
      replace (O * (x * (kH * (kW * 1)))) with (O * x * (kH * kW)) by ring.
      replace (O * (I * (kH * (kW * 1)))) with (I * O * (kH * kW)) by ring.
      apply Z.mul_lt_mono_pos_r; [assumption|].
      nia.
    + eexists _, _.
      eapply (icnr_run_misfit zero (built w r f) l l1 s s1 t t sub O I kH kW);
        cbn [built upsample upscale_factor initializer];
        try eassumption; try lia.
      fold q. rewrite Hmod. nia.
  - assert (q = 0) as Hq by (apply Z.div_small; lia).
    eexists _, _.
    eapply (icnr_run_empty zero (built w r f) l l1 s s1 t sub O I kH kW);
      cbn [built upsample upscale_factor initializer];
      try eassumption; try lia.
Qed.

Lemma bind_apply_op (op : Tensor A -> exn + Tensor A) a x
    (K : ref -> M (A:=A) ref) s :
  s !! a = Some x ->
  bind (apply_op op a) K s =
  match op x with
  | inr v => K (length s) (s ++ [v])
  | inl e => (Raise e, s)
  end.
Proof.
  intros H. unfold apply_op, bind. rewrite (load_ok _ _ _ H).
  now destruct (op x).
Qed.

Lemma bind_getitem sh i (K : Z -> M (A:=A) ref) s :
  bind (getitem sh i) K s =
  match item sh i with
  | inr d => K d s
  | inl e => (Raise e, s)
  end.
Proof. unfold getitem, item, bind. now destruct (sh !! i). Qed.

(** The chain after the base initializer returned tensor [a]. *)
Lemma icnr_chain_run self s l t a u :
  s !! l = Some t -> s !! a = Some u ->
  observe
    ((let* subkernel := transpose zero a 0 1 in
      let* sshape := Tensor_shape subkernel in
      let* s0 := getitem sshape 0 in
      let* s1 := getitem sshape 1 in
      let* flat := reshape zero subkernel [s0; s1; -1] in
      let* kernel :=
        repeat zero flat [1; 1; upscale_factor (upsample self) ^ 2] in
      let* tshape' := Tensor_shape l in
      let* o' := getitem tshape' 0 in
      let* shaped := reshape zero kernel ([-1; o'] ++ drop 2 tshape') in
      transpose zero shaped 0 1) s)
  = match icnr_chain zero (upscale_factor (upsample self)) (shape t) u with
    | inl e => Raise e
    | inr v => Return (Some v)
    end.
Proof.
  intros Hl Ha. unfold icnr_chain, and_then.
  unfold transpose at 1. rewrite (bind_apply_op _ _ _ _ _ Ha).
  destruct (transpose_op zero 0 1 u) as [e|subkernel]; [reflexivity|].
  step (Tensor_shape_ok _ _ _ (lookup_fresh s subkernel)).
  rewrite bind_getitem.
  destruct (item (shape subkernel) 0) as [e|s0]; [reflexivity|].
  rewrite bind_getitem.
  destruct (item (shape subkernel) 1) as [e|s1]; [reflexivity|].
  unfold reshape at 1.
  rewrite (bind_apply_op _ _ _ _ _ (lookup_fresh s subkernel)).
  destruct (reshape_op zero [s0; s1; -1] subkernel) as [e|flat];
    [reflexivity|].
  unfold repeat. rewrite (bind_apply_op _ _ _ _ _ (lookup_fresh _ flat)).
  destruct (repeat_op zero _ flat) as [e|kernel]; [reflexivity|].
  assert ((((s ++ [subkernel]) ++ [flat]) ++ [kernel]) !! l = Some t) as Hl'
    by now repeat apply lookup_old.
  step (Tensor_shape_ok _ _ _ Hl').
  rewrite bind_getitem.
  destruct (item (shape t) 0) as [e|o']; [reflexivity|].
  unfold reshape. rewrite (bind_apply_op _ _ _ _ _ (lookup_fresh _ kernel)).
  destruct (reshape_op zero _ kernel) as [e|shaped]; [reflexivity|].
  unfold transpose, apply_op, bind.
  rewrite (load_ok _ _ _ (lookup_fresh _ shaped)).
  destruct (transpose_op zero 0 1 shaped) as [e|v]; [reflexivity|].
  cbn [alloc observe]. now rewrite lookup_fresh.
Qed.

(** For an upscale factor other than 1, what the method returns is
    determined by the shape of its argument and by what the base
    initializer returns on the zero-filled tensor. *)
Lemma icnr_observe self s l t :
  upscale_factor (upsample self) <> 1 ->
  argument_local (initializer self) ->
  s !! l = Some t ->
  observe (icnr_initialization zero self l s)
  = icnr_observable zero (upscale_factor (upsample self)) (shape t)
      (fun z => observe (initializer self (length s) (s ++ [z]))).
Proof.
  intros Hr Hloc Hl. unfold icnr_initialization, icnr_observable.
  rewrite (proj2 (Z.eqb_neq _ 1) Hr).
  step (Tensor_shape_ok s l t Hl).
  rewrite bind_getitem. unfold item.
  destruct (shape t !! 0%nat) as [o|]; [|reflexivity].
  unfold int_truediv.
  destruct (upscale_factor (upsample self) ^ 2 =? 0); [reflexivity|].
  rewrite bind_ret. unfold torch_zeros.
  destruct (forallb _ _); [|reflexivity].
  set (z := zeros_val zero _).
  rewrite (bind_ok _ _ s (length s) (s ++ [z]) eq_refl).
  pose proof (lookup_lt_Some _ _ _ Hl) as Hlt.
  pose proof (Hloc (s ++ [z]) (length s) l) as Hkeep.
  unfold bind at 1.
  destruct (initializer self (length s) (s ++ [z])) as [[a|e] s1];
    [|reflexivity].
  cbn [snd] in Hkeep. cbn [observe].
  assert (s1 !! l = Some t) as Hl1.
  { rewrite Hkeep; [now apply lookup_old | lia |].
    rewrite length_app. cbn. lia. }
  destruct (s1 !! a) as [u|] eqn:Ha.
  - now apply icnr_chain_run.
  - unfold transpose, apply_op, bind, load. now rewrite Ha.
Qed.

(** C10. For r > 1 and a deterministic base initializer (one that writes
    only to the tensor it is handed), the result of the method depends on
    the shape of its argument and not on its elements: on two tensors of
    equal shape, in whatever stores, the two calls raise the same
    exception or return tensors of equal value. *)
Theorem icnr_depends_on_shape_only w1 w2 r f s1 l1 t1 s2 l2 t2 :
  1 < r ->
  deterministic f -> argument_local f ->
  s1 !! l1 = Some t1 -> s2 !! l2 = Some t2 ->
  shape t1 = shape t2 ->
  observe (icnr_initialization zero (built w1 r f) l1 s1)
  = observe (icnr_initialization zero (built w2 r f) l2 s2).
Proof.
  intros Hr Hdet Hloc H1 H2 Hshape.
  rewrite (icnr_observe (built w1 r f) s1 l1 t1),
          (icnr_observe (built w2 r f) s2 l2 t2);
    cbn [built upsample upscale_factor initializer]; try assumption; try lia.
  rewrite Hshape. unfold icnr_observable.
  destruct (shape t2 !! 0%nat) as [o|]; [|reflexivity].
  destruct (r ^ 2 =? 0); [reflexivity|].
  destruct (forallb _ _); [|reflexivity].
  now rewrite (Hdet (s1 ++ [_]) (length s1) (s2 ++ [_]) (length s2) _
                 (lookup_fresh _ _) (lookup_fresh _ _)).
Qed.

(** C9. No side effects: with a base initializer that is side-effect-free
    the method, for every upscale factor and every argument, leaves every
    tensor that existed before the call as it was, the tensor it was
    given included, whether it returns or raises. *)
Theorem icnr_no_side_effects self tensor s k v :
  side_effect_free (initializer self) ->
  s !! k = Some v ->
  (icnr_initialization zero self tensor s).2 !! k = Some v.
Proof.
  intros Hf Hs.
  apply (keeps_icnr zero k v self tensor); [| |exact Hs];
    intros; now apply keeps_side_effect_free.
Qed.

(** C1, as the code has it.  [post_build] drops the tensor that
    [icnr_initialization] returns: when the upscale factor is not 1 and
    the base initializer writes only to the tensor it is handed, the
    convolution weight is after [post_build] what it was before. *)
Theorem post_build_leaves_weight self s t :
  upscale_factor (upsample self) <> 1 ->
  argument_local (initializer self) ->
  s !! weight (convolution self) = Some t ->
  (post_build zero self s).2 !! weight (convolution self) = Some t.
Proof.
  intros Hr Hf Hs.
  assert (keeps (weight (convolution self)) t (post_build zero self)
            (fun _ => True)) as Hk.
  { unfold post_build. eapply keeps_bind.
    - apply keeps_icnr; [congruence|].
      intros z Hz. now apply keeps_argument_local.
    - intros _ _. now apply keeps_ret. }
  now apply Hk.
Qed.

End IcnrClaims.

(** ** The concrete scenario, on floats *)

Section Scenario.

Local Open Scope float_scope.

(** C5. O = 8, I = 3, kH = kW = 3, r = 2, and a base initializer that
    fills channel 0 of the sub-kernel with 1.0 and channel 1 with 2.0:
    the method returns a tensor of shape [8; 3; 3; 3] whose channels 0 to 3
    are the constant 1.0 slice and whose channels 4 to 7 are the constant
    2.0 slice, whatever the tensor it was given held. *)
Theorem icnr_concrete_scenario (junk : list float) :
  exists l' s' t',
    icnr_initialization 0
      (built 0 2 (fill_in_place (by_channel 0 [1; 2]))) 0%nat
      [mkTensor [8; 3; 3; 3]%Z junk] = (Return l', s') /\
    s' !! l' = Some t' /\
    shape t' = [8; 3; 3; 3]%Z /\
    Forall (fun o => select0 0 t' o = filled (constant 1) [3; 3; 3]%Z)
      [0; 1; 2; 3]%Z /\
    Forall (fun o => select0 0 t' o = filled (constant 2) [3; 3; 3]%Z)
      [4; 5; 6; 7]%Z.
Proof.
  eexists _, _, _. split; [vm_compute; reflexivity|].
  split; [vm_compute; reflexivity|].
  split; [reflexivity|].
  split; repeat constructor; vm_compute; reflexivity.
Qed.

End Scenario.

(** ** The constructor *)

Section ConstructorClaims.

Context {A : Type}.

(** C8, as the code has it.  The constructor checks nothing about the
    upscale factor.  It first calls the convolution constructor, with
    [out_channels * r * r] output channels, and fails exactly when and as
    that call fails; otherwise it returns a module that stores [r] as it
    came.  The convolution constructor is handed the same arguments for
    [r] and [- r], so one is accepted whenever the other is. *)
Theorem init_checks_no_factor (Conv_new : conv_args -> M (A:=A) Conv)
    in_ch out r k st (pad : Z + string) dil grp b pmode
    (init : ref -> M (A:=A) ref) (s : store A) :
  __init__ Conv_new in_ch out r k st pad dil grp b pmode init s
  = match Conv_new {| in_channels := in_ch;
                      conv_out_channels := out * r * r;
                      kernel_size := k; stride := st; padding := pad;
                      dilation := dil; groups := grp; bias := b;
                      padding_mode := pmode |} s with
    | (Return c, s') =>
        (Return {| convolution := c;
                   upsample := {| upscale_factor := r |};
                   initializer := init |}, s')
    | (Raise e, s') => (Raise e, s')
    end
  /\ match __init__ Conv_new in_ch out r k st pad dil grp b pmode init s,
           __init__ Conv_new in_ch out (- r) k st pad dil grp b pmode init s
     with
     | (Return m1, s1), (Return m2, s2) =>
         convolution m1 = convolution m2 /\ s1 = s2 /\
         upscale_factor (upsample m1) = r /\
         upscale_factor (upsample m2) = - r
     | (Raise e1, s1), (Raise e2, s2) => e1 = e2 /\ s1 = s2
     | _, _ => False
     end.
Proof.
  unfold __init__, bind, PixelShuffle_new, ret.
  replace (out * - r * - r) with (out * r * r) by ring.
  destruct (Conv_new _ s) as [[c|e] s']; cbn; auto.
Qed.

End ConstructorClaims.

(** ** Instances *)

Section Instances.

(** At upscale factor -1 the constructor returns a module. *)
Lemma init_accepts_negative_factor :
  exists m,
    __init__ (Conv_alloc 0) 3 1 (-1) 3 1 (inr "same"%string) 1 1 true
      "zeros"%string ones []
    = (Return m, [filled (constant 0) [1; 3; 3; 3]])
    /\ upscale_factor (upsample m) = -1.
Proof. eexists. split; reflexivity. Qed.

(** O = 7, I = 3, kH = kW = 3, r = 2: the second [reshape] raises. *)
Lemma icnr_raises_on_indivisible :
  (icnr_initialization 0 (built 0 2 ones) 0%nat
     [filled (constant 0) [7; 3; 3; 3]]).1
  = Raise (RuntimeError "shape is invalid for input size").
Proof. vm_compute. reflexivity. Qed.

(** The tensor [post_build] computes and drops differs from the weight it
    leaves in place. *)
Lemma post_build_drops_result :
  (post_build 0 (built 0 2 ones) [weight4]).1 = Return tt /\
  (post_build 0 (built 0 2 ones) [weight4]).2 !! 0%nat = Some weight4 /\
  observe (icnr_initialization 0 (built 0 2 ones) 0%nat [weight4])
  = Return (Some (mkTensor [4; 1; 1; 1] [1; 1; 1; 1])).
Proof. repeat split; vm_compute; reflexivity. Qed.

Lemma post_build_leaves_weight_witness :
  (post_build 0 (built 0 2 ones) [weight4]).2 !! 0%nat = Some weight4.
Proof.
  apply (post_build_leaves_weight 0 (built 0 2 ones) [weight4] weight4).
  - cbn. lia.
  - apply fill_in_place_argument_local.
  - reflexivity.
Defined.

Lemma icnr_identity_case_witness :
  icnr_initialization 0 (built 0 1 ones) 0%nat = ones 0%nat.
Proof.
  apply (icnr_identity_case 0 (built 0 1 ones) 0%nat). reflexivity.
Defined.

Lemma icnr_preserves_shape_witness :
  exists l' s' t',
    icnr_initialization 0 (built 0 2 ones) 0%nat [weight4] = (Return l', s') /\
    s' !! l' = Some t' /\ shape t' = shape weight4.
Proof.
  apply (icnr_preserves_shape 0 0%nat 2 ones [weight4] 0%nat weight4 4 1 1 1).
  - apply fill_in_place_shape_preserving.
  - apply fill_in_place_argument_local.
  - reflexivity.
  - split; [repeat constructor; lia | reflexivity].
  - reflexivity.
  - lia.
  - lia.
  - lia.
  - lia.
  - exists 1. reflexivity.
Defined.

Lemma icnr_uniform_blocks_witness :
  exists l' s' t',
    icnr_initialization 0 (built 0 2 (fill_in_place (by_channel 0 [1; 2])))
      0%nat [filled (constant 0) [8; 3; 3; 3]] = (Return l', s') /\
    s' !! l' = Some t' /\ shape t' = [8; 3; 3; 3] /\
    forall o1 o2,
      0 <= o1 < 8 -> 0 <= o2 < 8 -> o1 / (2 * 2) = o2 / (2 * 2) ->
      select0 0 t' o1 = select0 0 t' o2.
Proof.
  apply (icnr_uniform_blocks 0 0%nat 2 (fill_in_place (by_channel 0 [1; 2]))
           [filled (constant 0) [8; 3; 3; 3]] 0%nat
           (filled (constant 0) [8; 3; 3; 3]) 8 3 3 3).
  - lia.
  - apply fill_in_place_shape_preserving.
  - apply fill_in_place_argument_local.
  - reflexivity.
  - reflexivity.
  - lia.
  - lia.
  - lia.
  - lia.
  - exists 2. reflexivity.
Defined.

Lemma icnr_refines_reference_witness :
  exists sub s1 l' s',
    subkernel_of 0 (fill_in_place (by_channel 0 [1; 2]))
      [filled (constant 0) [8; 3; 3; 3]] 8 3 3 3 2 sub s1 /\
    shape sub = [8 / (2 * 2); 3; 3; 3] /\
    icnr_initialization 0 (built 0 2 (fill_in_place (by_channel 0 [1; 2])))
      0%nat [filled (constant 0) [8; 3; 3; 3]] = (Return l', s') /\
    s' !! l' = Some (icnr_reference_steps 0 sub 8 3 3 3 2).
Proof.
  apply (icnr_refines_reference 0 0%nat 2
           (fill_in_place (by_channel 0 [1; 2]))
           [filled (constant 0) [8; 3; 3; 3]] 0%nat
           (filled (constant 0) [8; 3; 3; 3]) 8 3 3 3).
  - lia.
  - apply fill_in_place_shape_preserving.
  - apply fill_in_place_argument_local.
  - reflexivity.
  - reflexivity.
  - lia.
  - lia.
  - lia.
  - lia.
  - exists 2. reflexivity.
Defined.

(** O = 7, I = 7, kH = kW = 1, r = 2: the call returns 28 elements for 49. *)
Lemma icnr_indivisible_witness :
  exists l' s' t',
    icnr_initialization 0 (built 0 2 ones) 0%nat
      [filled (constant 0) [7; 7; 1; 1]] = (Return l', s') /\
    s' !! l' = Some t' /\
    shape t' = [7; 7 * (7 / (2 * 2)) * (2 * 2) / 7; 1; 1] /\
    Shape.numel (shape t')
      < Shape.numel (shape (filled (constant 0) [7; 7; 1; 1])).
Proof.
  apply (icnr_indivisible 0 0%nat 2 ones [filled (constant 0) [7; 7; 1; 1]]
           0%nat (filled (constant 0) [7; 7; 1; 1]) 7 7 1 1).
  - lia.
  - apply fill_in_place_shape_preserving.
  - apply fill_in_place_argument_local.
  - reflexivity.
  - reflexivity.
  - lia.
  - lia.
  - lia.
  - lia.
  - intros [c Hc]. lia.
Defined.

Lemma icnr_no_side_effects_witness :
  (icnr_initialization 0 (built 0 2 (fill_fresh (constant 1))) 0%nat
     [weight4]).2 !! 0%nat = Some weight4.
Proof.
  apply (icnr_no_side_effects 0 (built 0 2 (fill_fresh (constant 1))) 0%nat
           [weight4] 0%nat weight4).
  - apply fill_fresh_side_effect_free.
  - reflexivity.
Defined.

Lemma icnr_depends_on_shape_only_witness :
  observe (icnr_initialization 0 (built 0 2 ones) 0%nat [weight4])
  = observe (icnr_initialization 0 (built 0 2 ones) 1%nat
               [weight4; mkTensor [4; 1; 1; 1] [0; 0; 0; 9]]).
Proof.
  apply (icnr_depends_on_shape_only 0 0%nat 0%nat 2 ones
           [weight4] 0%nat weight4
           [weight4; mkTensor [4; 1; 1; 1] [0; 0; 0; 9]] 1%nat
           (mkTensor [4; 1; 1; 1] [0; 0; 0; 9])).
  - lia.
  - apply fill_in_place_deterministic.
  - apply fill_in_place_argument_local.
  - reflexivity.
  - reflexivity.
  - reflexivity.
Defined.

End Instances.

(** * Further properties of [icnr_initialization] *)

(** ** Exceptions raised before the base initializer runs, and its own *)

Section EarlyExits.

Context {A : Type} (zero : A).
Implicit Types (self : Conv2dPixelShuffle (A:=A)) (s : store A).

(** Upscale factor 0: [tensor.shape[0] / 0] raises ZeroDivisionError for
    every tensor that has an axis; nothing was allocated and the base
    initializer was not called. *)
Theorem icnr_zero_factor self l s t :
  upscale_factor (upsample self) = 0 ->
  s !! l = Some t -> shape t <> [] ->
  icnr_initialization zero self l s = (Raise ZeroDivisionError, s).
Proof.
  intros Hr Hl Hrank. unfold icnr_initialization. rewrite Hr.
  change (0 =? 1) with false. cbv iota.
  step (Tensor_shape_ok s l t Hl).
  destruct (shape t) as [|o rest]; [congruence|].
  reflexivity.
Qed.

(** A tensor without axes: [tensor.shape[0]] raises IndexError when the
    upscale factor is not 1, whatever the factor; nothing was allocated and
    the base initializer was not called. *)
Theorem icnr_no_axis self l s t :
  upscale_factor (upsample self) <> 1 ->
  s !! l = Some t -> shape t = [] ->
  icnr_initialization zero self l s = (Raise IndexError, s).
Proof.
  intros Hr Hl Hshape. unfold icnr_initialization.
  rewrite (proj2 (Z.eqb_neq _ 1) Hr).
  step (Tensor_shape_ok s l t Hl). now rewrite Hshape.
Qed.

(** An exception of the base initializer, raised on the zero-filled tensor
    of the reduced shape, is the exception of the method, with the store as
    the initializer left it: nothing is reshaped.  The channel count is
    below 2^53, where [int(O / r ** 2)] is the integer quotient. *)
Theorem icnr_initializer_raises self l s t O rest e s1 :
  let r := upscale_factor (upsample self) in
  r <> 1 -> r <> 0 ->
  s !! l = Some t -> shape t = O :: rest ->
  Forall (fun d => 0 <= d) (O :: rest) ->
  O < 2 ^ 53 ->
  initializer self (length s) (s ++ [zeros_val zero (O / (r * r) :: rest)])
    = (Raise e, s1) ->
  icnr_initialization zero self l s = (Raise e, s1).
Proof.
  intros r Hr1 Hr0 Hl Hshape Hdims _ Hinit.
  inversion Hdims as [|? ? HO Hrest]; subst.
  assert (0 < r * r) as HR by nia.
  unfold icnr_initialization. fold r.
  rewrite (proj2 (Z.eqb_neq r 1) Hr1), !Z.pow_2_r.
  step (Tensor_shape_ok s l t Hl). rewrite Hshape.
  cbn [getitem lookup list_lookup]. rewrite bind_ret.
  unfold int_truediv. rewrite (proj2 (Z.eqb_neq (r * r) 0)) by lia.
  rewrite bind_ret, Z.quot_div_nonneg by lia.
  cbn [drop app].
  erewrite bind_ok.
  2:{ apply torch_zeros_ok. constructor; [apply Z.div_pos; lia | exact Hrest]. }
  cbv beta. now apply bind_raise.
Qed.

(** Only the square of the upscale factor is used once the factor is known
    not to be 1: the factors [r] and [- r] give the same computation. *)
Theorem icnr_factor_sign w r f l :
  r <> 1 -> r <> -1 ->
  icnr_initialization zero (built w (- r) f) l
  = icnr_initialization zero (built w r f) l.
Proof.
  intros H1 H2. unfold icnr_initialization.
  cbn [built upsample upscale_factor initializer].
  rewrite (proj2 (Z.eqb_neq r 1)) by lia.
  rewrite (proj2 (Z.eqb_neq (- r) 1)) by lia.
  replace ((- r) ^ 2) with (r ^ 2) by (rewrite !Z.pow_2_r; ring).
  reflexivity.
Qed.

(** A new tensor object is none of the existing ones. *)
Lemma keeps_apply_op_fresh k v (op : Tensor A -> exn + Tensor A) l :
  keeps k v (apply_op op l) (fun z => z <> k).
Proof.
  unfold apply_op. eapply keeps_bind; [apply keeps_load|].
  intros t _. destruct (op t); [apply keeps_raise | apply keeps_alloc].
Qed.

(** When the upscale factor is not 1, a base initializer that writes only
    to the tensor it is handed cannot reach a tensor that existed before
    the call, not even when it fills in place: every such tensor keeps its
    value, and the tensor returned is a new object, none of them. *)
Theorem icnr_returns_new_tensor self l s k v :
  upscale_factor (upsample self) <> 1 ->
  argument_local (initializer self) ->
  s !! k = Some v ->
  match icnr_initialization zero self l s with
  | (Return l', s') => l' <> k /\ s' !! k = Some v
  | (Raise _, s') => s' !! k = Some v
  end.
Proof.
  intros Hr Hloc Hk.
  assert (keeps k v (icnr_initialization zero self l) (fun z => z <> k)) as H.
  { unfold icnr_initialization.
    rewrite (proj2 (Z.eqb_neq _ 1) Hr).
    eapply keeps_bind; [apply keeps_Tensor_shape|]. intros tshape _.
    eapply keeps_bind; [apply keeps_getitem|]. intros o _.
    eapply keeps_bind; [apply keeps_int_truediv|]. intros q _.
    eapply keeps_bind; [apply keeps_torch_zeros|]. intros z Hz.
    eapply keeps_bind; [now apply keeps_argument_local|]. intros filled_ _.
    eapply keeps_bind; [apply keeps_apply_op|]. intros subkernel _.
    eapply keeps_bind; [apply keeps_Tensor_shape|]. intros sshape _.
    eapply keeps_bind; [apply keeps_getitem|]. intros s0 _.
    eapply keeps_bind; [apply keeps_getitem|]. intros s1_ _.
    eapply keeps_bind; [apply keeps_apply_op|]. intros flat _.
    eapply keeps_bind; [apply keeps_apply_op|]. intros kernel _.
    eapply keeps_bind; [apply keeps_Tensor_shape|]. intros tshape' _.
    eapply keeps_bind; [apply keeps_getitem|]. intros o' _.
    eapply keeps_bind; [apply keeps_apply_op|]. intros shaped _.
    apply keeps_apply_op_fresh. }
  destruct (H s Hk) as [Hkeep Hpost].
  destruct (icnr_initialization zero self l s) as [[l'|e] s'];
    cbn in Hkeep, Hpost; auto.
Qed.

End EarlyExits.

(** ** Tensors with any number of trailing axes *)

Section ValueOps.

Context {A : Type} (zero : A).

Lemma forallb_nonneg sh :
  Forall (fun d => 0 <= d) sh -> forallb (fun d => 0 <=? d) sh = true.
Proof.
  induction 1 as [|d ds Hd _ IH]; cbn; [reflexivity|].
  rewrite IH. now rewrite (proj2 (Z.leb_le 0 d) Hd).
Qed.

(** Scanning a list of sizes without [-1] multiplies them up. *)
Lemma infer_scan_nonneg ds :
  Forall (fun d => 0 <= d) ds ->
  forall pos acc dim,
    infer_scan ds pos acc dim = inr (acc * Shape.numel ds, dim).
Proof.
  induction 1 as [|d ds Hd _ IH]; intros pos acc dim; cbn.
  - now rewrite Z.mul_1_r.
  - rewrite (proj2 (Z.eqb_neq d (-1))) by lia.
    rewrite (proj2 (Z.leb_le 0 d) Hd), IH. do 2 f_equal. ring.
Qed.

Lemma infer_size_leading o rest n :
  0 < o -> Forall (fun d => 0 < d) rest ->
  n mod (o * Shape.numel rest) = 0 ->
  infer_size (-1 :: o :: rest) n
  = inr (n / (o * Shape.numel rest) :: o :: rest).
Proof.
  intros Ho Hrest Hn.
  assert (Forall (fun d => 0 <= d) (o :: rest)) as Hnn.
  { constructor; [lia|]. eapply Forall_impl; [exact Hrest|]. cbn. lia. }
  pose proof (ShapeFacts.numel_pos _ Hrest) as HK.
  assert (0 < o * Shape.numel rest) as Hpos by nia.
  unfold infer_size.
  change (infer_scan (-1 :: o :: rest) 0 1 None)
    with (infer_scan (o :: rest) 1 1 (Some 0%nat)).
  rewrite (infer_scan_nonneg _ Hnn). cbn [Shape.numel].
  rewrite Z.mul_1_l, Hn.
  rewrite (proj2 (Z.ltb_lt 0 _) Hpos), Z.eqb_refl.
  cbn [bool_decide is_Some]. rewrite orb_true_r.
  rewrite (proj2 (Z.eqb_neq _ 0)) by lia.
  reflexivity.
Qed.

Lemma infer_size_leading_empty o rest :
  Forall (fun d => 0 <= d) (o :: rest) ->
  o * Shape.numel rest = 0 ->
  infer_size (-1 :: o :: rest) 0
  = inl (RuntimeError
      "cannot reshape tensor of 0 elements: the unspecified dimension size -1 is ambiguous").
Proof.
  intros Hnn H0.
  unfold infer_size.
  change (infer_scan (-1 :: o :: rest) 0 1 None)
    with (infer_scan (o :: rest) 1 1 (Some 0%nat)).
  rewrite (infer_scan_nonneg _ Hnn). cbn [Shape.numel].
  rewrite Z.mul_1_l, H0. reflexivity.
Qed.

Lemma infer_size_flatten_empty a b :
  0 <= a -> 0 <= b -> a * b = 0 ->
  infer_size [a; b; -1] 0
  = inl (RuntimeError
      "cannot reshape tensor of 0 elements: the unspecified dimension size -1 is ambiguous").
Proof.
  intros Ha Hb H0. unfold infer_size. cbn [infer_scan].
  decide_tests. cbv beta iota.
  replace (1 * a * b) with 0 by lia.
  reflexivity.
Qed.

Lemma transpose_op_ok (t : Tensor A) :
  (2 <= length (shape t))%nat ->
  transpose_op zero 0 1 t = inr (transpose_val zero t 0 1).
Proof.
  intros H. unfold transpose_op.
  assert ((0 <? Nat.max 1 (length (shape t)))%nat = true) as ->
    by (apply Nat.ltb_lt; lia).
  assert ((1 <? Nat.max 1 (length (shape t)))%nat = true) as ->
    by (apply Nat.ltb_lt; lia).
  reflexivity.
Qed.

Lemma repeat_op_ok (t : Tensor A) sizes :
  length sizes = length (shape t) ->
  Forall (fun n => 0 <= n) sizes ->
  repeat_op zero sizes t = inr (repeat_val zero t sizes).
Proof.
  intros Hlen Hs. unfold repeat_op.
  rewrite Hlen, Nat.ltb_irrefl, Nat.sub_diag, (forallb_nonneg _ Hs).
  cbn [replicate app]. now destruct t.
Qed.

Lemma observe_return_inv (x : outcome ref * store A) v :
  observe x = Return (Some v) ->
  exists l' s', x = (Return l', s') /\ s' !! l' = Some v.
Proof.
  destruct x as [[l'|e] s']; cbn; intros H; [|discriminate].
  exists l', s'. split; [reflexivity | congruence].
Qed.

Lemma observe_raise_inv (x : outcome ref * store A) e :
  observe x = Raise e -> exists s', x = (Raise e, s').
Proof.
  destruct x as [[l'|e'] s']; cbn; intros H; [discriminate|].
  exists s'. congruence.
Qed.

(** What [icnr_observable] needs of the base initializer, from its
    contract. *)
Lemma initializer_observed (f : ref -> M (A:=A) ref) (s : store A) sh :
  shape_preserving f -> Forall (fun d => 0 <= d) sh ->
  exists sub,
    observe (f (length s) (s ++ [zeros_val zero sh])) = Return (Some sub) /\
    shape sub = sh.
Proof.
  intros Hsp Hsh.
  destruct (Hsp (s ++ [zeros_val zero sh]) (length s) (zeros_val zero sh))
    as (l1 & s1 & sub & Hrun & Hsub & Hshape).
  { apply lookup_fresh. }
  { now apply zeros_wf. }
  exists sub. rewrite Hrun. cbn. now rewrite Hsub.
Qed.

End ValueOps.

Section ChainAnyRank.

Context {A : Type} (zero : A).
Variables (sub : Tensor A) (O I r : Z) (rest : list Z).

Let R := r * r.
Let q := O / R.
Let K := Shape.numel rest.

Hypothesis HR : 0 < R.
Hypothesis Hq : 0 < q.
Hypothesis HI : 0 < I.
Hypothesis Hrest : Forall (fun d => 0 < d) rest.
Hypothesis Hdiv : O = q * R.
Hypothesis Hsubshape : shape sub = q :: I :: rest.

Let t3 := transpose_val zero sub 0 1.
Let t4 := reshape_val zero t3 [I; q; K].
Let t5 := repeat_val zero t4 [1; 1; R].
Let t6 := reshape_val zero t5 (I :: O :: rest).
Let res := transpose_val zero t6 0 1.

Lemma rest_nonneg : Forall (fun d => 0 <= d) rest.
Proof. eapply Forall_impl; [exact Hrest|]. cbn. lia. Qed.

Lemma K_pos : 0 < K.
Proof. now apply ShapeFacts.numel_pos. Qed.

Lemma shape_t3 : shape t3 = I :: q :: rest.
Proof. unfold t3. cbn [transpose_val gather shape]. now rewrite Hsubshape. Qed.

(** The chain runs through, whatever the number of trailing axes. *)
Lemma icnr_chain_any_rank :
  icnr_chain zero r (O :: I :: rest) sub = inr res.
Proof.
  pose proof K_pos as HK.
  unfold icnr_chain. rewrite Z.pow_2_r. fold R.
  rewrite transpose_op_ok by (rewrite Hsubshape; cbn; lia).
  cbn [and_then]. fold t3. rewrite shape_t3.
  cbn [item lookup list_lookup and_then].
  assert (reshape_op zero [I; q; -1] t3 = inr t4) as ->.
  { unfold reshape_op. rewrite shape_t3. cbn [Shape.numel]. fold K.
    replace (I * (q * K)) with (I * q * K) by ring.
    rewrite infer_size_flatten by lia. reflexivity. }
  cbn [and_then].
  rewrite repeat_op_ok; [| reflexivity | repeat constructor; lia].
  cbn [and_then drop app]. fold t5. change (drop 0 rest) with rest.
  assert (reshape_op zero (-1 :: O :: rest) t5 = inr t6) as ->.
  { unfold reshape_op.
    assert (Shape.numel (shape t5) = I * (O * K)) as ->.
    { cbn. fold K. rewrite Hdiv. ring. }
    assert (0 < O) as HO by nia.
    rewrite infer_size_leading; [| assumption | assumption |].
    - fold K. rewrite Z.div_mul by nia. reflexivity.
    - fold K. apply Z.mod_mul. nia. }
  cbn [and_then].
  apply transpose_op_ok. cbn. lia.
Qed.

Lemma shape_res : shape res = O :: I :: rest.
Proof. reflexivity. Qed.

(** Element [o :: i :: ks] of the result is element [o / r² :: i :: ks] of
    the sub-kernel. *)
Lemma chain_get o i ks :
  Shape.in_range (O :: I :: rest) (o :: i :: ks) ->
  get zero res (o :: i :: ks) = get zero sub (o / R :: i :: ks).
Proof.
  pose proof K_pos as HK.
  cbn [Shape.in_range]. intros (Ho & Hi & Hks).
  pose proof (ShapeFacts.ravel_bound _ _ Hks) as Hu. fold K in Hu.
  pose proof (Z.div_mod o R ltac:(lia)) as Hom.
  pose proof (Z.mod_pos_bound o R HR) as Hm.
  assert (0 <= o / R < q) as Hn.
  { split; [apply Z.div_pos; lia|].
    apply Z.div_lt_upper_bound; [lia | nia]. }
  set (n := o / R) in *. set (m := o mod R) in *.
  set (u := Shape.ravel rest ks) in *.
  assert (0 <= m * K + u < K * R) as HT by nia.
  (* the final transposition *)
  unfold res, transpose_val at 1. rewrite get_gather.
  2:{ cbn. auto. }
  cbn [Shape.swap lookup list_lookup insert list_insert].
  (* the second reshape *)
  unfold t6. rewrite get_reshape by (cbn; auto).
  (* the tiling *)
  transitivity (get zero t5 [i; n; m * K + u]).
  { unfold get. f_equal. cbn [shape t5 repeat_val gather t4 reshape_val
      Shape.scale Shape.ravel Shape.numel]. fold K u.
    rewrite Hdiv, Hom. ring. }
  unfold t5 at 1, repeat_val. rewrite get_gather.
  2:{ cbn. lia. }
  cbn [shape t4 reshape_val Shape.wrap].
  rewrite (Z.mod_small i I), (Z.mod_small n q) by lia.
  rewrite (Z.add_comm (m * K)), Z.mod_add, Z.mod_small by lia.
  (* the first reshape *)
  unfold t4. rewrite get_reshape by (cbn; lia).
  (* the first transposition *)
  transitivity (get zero t3 (i :: n :: ks)).
  { unfold get. f_equal. rewrite shape_t3. cbn [Shape.ravel Shape.numel].
    fold K u. ring. }
  unfold t3, transpose_val. rewrite get_gather.
  2:{ rewrite Hsubshape. cbn. auto. }
  reflexivity.
Qed.

End ChainAnyRank.

Section AnyRankClaims.

Context {A : Type} (zero : A).
Implicit Types (f : ref -> M (A:=A) ref) (s : store A).

(** For a factor other than 0 and 1 and a base initializer that meets its
    contract, the method is the reshaping chain applied to the
    sub-kernel. *)
Lemma icnr_observe_chain w r f s l t O rest' :
  r <> 1 -> r <> 0 ->
  shape_preserving f -> argument_local f ->
  s !! l = Some t -> shape t = O :: rest' ->
  Forall (fun d => 0 <= d) (O :: rest') ->
  exists sub,
    observe (f (length s) (s ++ [zeros_val zero (O / (r * r) :: rest')]))
      = Return (Some sub) /\
    shape sub = O / (r * r) :: rest' /\
    observe (icnr_initialization zero (built w r f) l s)
    = match icnr_chain zero r (O :: rest') sub with
      | inl e => Raise e
      | inr v => Return (Some v)
      end.
Proof.
  intros Hr1 Hr0 Hsp Hloc Hl Hshape Hdims.
  inversion Hdims as [|? ? HO Hrest]; subst.
  assert (0 < r * r) as HR by nia.
  assert (Forall (fun d => 0 <= d) (O / (r * r) :: rest')) as Hnew.
  { constructor; [apply Z.div_pos; lia | exact Hrest]. }
  destruct (initializer_observed zero f s _ Hsp Hnew) as (sub & Hobs & Hsub).
  exists sub. split; [exact Hobs|]. split; [exact Hsub|].
  rewrite (icnr_observe zero (built w r f) s l t);
    cbn [built upsample upscale_factor initializer]; try assumption.
  unfold icnr_observable. rewrite Hshape. cbn [lookup list_lookup].
  rewrite Z.pow_2_r, (proj2 (Z.eqb_neq (r * r) 0)) by lia.
  rewrite Z.quot_div_nonneg by lia. cbn [drop app].
  change (drop 0 rest') with rest'.
  now rewrite (forallb_nonneg _ Hnew), Hobs.
Qed.

(** The general run: any number of trailing axes, all dimensions positive,
    a channel count that r² divides. *)
Lemma icnr_any_rank_run w r f s l t O I rest :
  r <> 1 ->
  shape_preserving f -> argument_local f ->
  s !! l = Some t -> shape t = O :: I :: rest ->
  0 < O -> 0 < I -> Forall (fun d => 0 < d) rest -> (r * r | O) ->
  exists sub l' s' t',
    observe (f (length s) (s ++ [zeros_val zero (O / (r * r) :: I :: rest)]))
      = Return (Some sub) /\
    icnr_initialization zero (built w r f) l s = (Return l', s') /\
    s' !! l' = Some t' /\ shape t' = O :: I :: rest /\
    0 < r * r /\
    forall o i ks,
      Shape.in_range (O :: I :: rest) (o :: i :: ks) ->
      get zero t' (o :: i :: ks) = get zero sub (o / (r * r) :: i :: ks).
Proof.
  intros Hr1 Hsp Hloc Hl Hshape HO HI Hrest [c Hc].
  assert (r <> 0) as Hr0 by (intros E; rewrite E in Hc; lia).
  assert (0 < r * r) as HR by nia.
  assert (O / (r * r) = c) as Hq by (rewrite Hc; now apply Z.div_mul; lia).
  assert (0 < c) as Hcpos by nia.
  assert (Forall (fun d => 0 <= d) (O :: I :: rest)) as Hdims.
  { constructor; [lia|]. constructor; [lia|].
    eapply Forall_impl; [exact Hrest|]. cbn. lia. }
  destruct (icnr_observe_chain w r f s l t O (I :: rest) Hr1 Hr0 Hsp Hloc Hl
              Hshape Hdims) as (sub & Hobs & Hsub & Hrun).
  rewrite (icnr_chain_any_rank zero sub O I r rest) in Hrun;
    try assumption; try lia.
  destruct (observe_return_inv _ _ Hrun) as (l' & s' & Hret & Hres).
  exists sub, l', s'. eexists.
  split; [exact Hobs|]. split; [exact Hret|]. split; [exact Hres|].
  split; [reflexivity|]. split; [exact HR|].
  intros o i ks Hin. apply chain_get; try assumption; lia.
Qed.

(** Any rank, shape and elements.  The method is written for a weight with
    any number of trailing axes (a [Conv1d] or [Conv3d] weight as well): for
    a tensor of shape [O :: I :: rest] with positive dimensions, a factor
    other than 1 whose square divides O, and a base initializer that meets
    its contract, it returns a tensor of the same shape whose element
    [o :: i :: ks] is element [o / r² :: i :: ks] of the sub-kernel the base
    initializer made. *)
Theorem icnr_any_rank w r f s l t O I rest :
  r <> 1 ->
  shape_preserving f -> argument_local f ->
  s !! l = Some t -> shape t = O :: I :: rest ->
  0 < O -> 0 < I -> Forall (fun d => 0 < d) rest -> (r * r | O) ->
  exists sub l' s' t',
    observe (f (length s) (s ++ [zeros_val zero (O / (r * r) :: I :: rest)]))
      = Return (Some sub) /\
    icnr_initialization zero (built w r f) l s = (Return l', s') /\
    s' !! l' = Some t' /\ shape t' = shape t /\
    forall o i ks,
      Shape.in_range (O :: I :: rest) (o :: i :: ks) ->
      get zero t' (o :: i :: ks) = get zero sub (o / (r * r) :: i :: ks).
Proof.
  intros Hr1 Hsp Hloc Hl Hshape HO HI Hrest Hdiv.
  destruct (icnr_any_rank_run w r f s l t O I rest Hr1 Hsp Hloc Hl Hshape
              HO HI Hrest Hdiv)
    as (sub & l' & s' & t' & Hobs & Hret & Hres & Hsh & _ & Hget).
  exists sub, l', s', t'. rewrite Hshape. auto.
Qed.

(** Any rank, uniform blocks: under the same conditions, two slices of the
    result along the first axis that lie in the same contiguous block of r²
    channels are equal tensors. *)
Theorem icnr_any_rank_uniform w r f s l t O I rest :
  r <> 1 ->
  shape_preserving f -> argument_local f ->
  s !! l = Some t -> shape t = O :: I :: rest ->
  0 < O -> 0 < I -> Forall (fun d => 0 < d) rest -> (r * r | O) ->
  exists l' s' t',
    icnr_initialization zero (built w r f) l s = (Return l', s') /\
    s' !! l' = Some t' /\
    forall o1 o2,
      0 <= o1 < O -> 0 <= o2 < O -> o1 / (r * r) = o2 / (r * r) ->
      select0 zero t' o1 = select0 zero t' o2.
Proof.
  intros Hr1 Hsp Hloc Hl Hshape HO HI Hrest Hdiv.
  destruct (icnr_any_rank_run w r f s l t O I rest Hr1 Hsp Hloc Hl Hshape
              HO HI Hrest Hdiv)
    as (sub & l' & s' & t' & Hobs & Hret & Hres & Hsh & HR & Hget).
  exists l', s', t'. split; [exact Hret|]. split; [exact Hres|].
  intros o1 o2 Ho1 Ho2 Hblock.
  unfold select0. rewrite Hsh. cbn [tail]. apply gather_ext.
  { constructor; [lia|]. eapply Forall_impl; [exact Hrest|]. cbn. lia. }
  intros [|i ks]; cbn [Shape.in_range]; [tauto|].
  intros [Hi Hks].
  rewrite !Hget by (cbn; auto). now rewrite Hblock.
Qed.

(** A tensor with a single axis: the sub-kernel has one axis too and
    [transpose(0, 1)] raises IndexError, after the base initializer has
    run. *)
Theorem icnr_single_axis w r f s l t O :
  r <> 1 -> r <> 0 ->
  shape_preserving f -> argument_local f ->
  s !! l = Some t -> shape t = [O] -> 0 <= O ->
  exists s', icnr_initialization zero (built w r f) l s = (Raise IndexError, s').
Proof.
  intros Hr1 Hr0 Hsp Hloc Hl Hshape HO.
  destruct (icnr_observe_chain w r f s l t O [] Hr1 Hr0 Hsp Hloc Hl Hshape)
    as (sub & Hobs & Hsub & Hrun).
  { repeat constructor. exact HO. }
  apply observe_raise_inv. rewrite Hrun.
  unfold icnr_chain, transpose_op. now rewrite Hsub.
Qed.

(** Empty tensors and too few channels: when the sub-kernel has no element
    (O < r², or a dimension is 0) a [reshape] cannot resolve its [-1] and
    raises RuntimeError, after the base initializer has run. *)
Theorem icnr_empty_subkernel w r f s l t O I rest :
  r <> 1 -> r <> 0 ->
  shape_preserving f -> argument_local f ->
  s !! l = Some t -> shape t = O :: I :: rest ->
  Forall (fun d => 0 <= d) (O :: I :: rest) ->
  O / (r * r) * I * Shape.numel rest = 0 ->
  exists s',
    icnr_initialization zero (built w r f) l s
    = (Raise (RuntimeError
         "cannot reshape tensor of 0 elements: the unspecified dimension size -1 is ambiguous"),
       s').
Proof.
  intros Hr1 Hr0 Hsp Hloc Hl Hshape Hdims Hempty.
  destruct (icnr_observe_chain w r f s l t O (I :: rest) Hr1 Hr0 Hsp Hloc Hl
              Hshape Hdims) as (sub & Hobs & Hsub & Hrun).
  apply observe_raise_inv. rewrite Hrun. clear Hrun.
  inversion Hdims as [|? ? HO Hdims']; subst.
  inversion Hdims' as [|? ? HI Hrest]; subst.
  assert (0 < r * r) as HR by nia.
  set (q := O / (r * r)) in *.
  assert (0 <= q) as Hq by (apply Z.div_pos; lia).
  pose proof (ShapeFacts.numel_nonneg _ Hrest) as HK.
  set (K := Shape.numel rest) in *.
  unfold icnr_chain. rewrite Z.pow_2_r.
  rewrite transpose_op_ok by (rewrite Hsub; cbn; lia).
  cbn [and_then].
  set (t3 := transpose_val zero sub 0 1).
  assert (shape t3 = I :: q :: rest) as Hs3.
  { unfold t3. cbn [transpose_val gather shape]. now rewrite Hsub. }
  rewrite Hs3. cbn [item lookup list_lookup and_then].
  unfold reshape_op at 1. rewrite Hs3. cbn [Shape.numel]. fold K.
  destruct (Z.eq_dec (I * q) 0) as [Hz|Hnz].
  - replace (I * (q * K)) with 0 by nia.
    rewrite infer_size_flatten_empty by lia. reflexivity.
  - assert (0 < I) by nia. assert (0 < q) by nia.
    assert (K = 0) as HK0 by nia.
    replace (I * (q * K)) with (I * q * K) by ring.
    rewrite infer_size_flatten by lia. cbn [and_then].
    rewrite repeat_op_ok; [| reflexivity | repeat constructor; lia].
    cbn [and_then drop app]. change (drop 0 rest) with rest.
    unfold reshape_op.
    assert (Shape.numel
              (shape (repeat_val zero (reshape_val zero t3 [I; q; K])
                        [1; 1; r * r])) = 0) as ->.
    { cbn. rewrite HK0. ring. }
    rewrite infer_size_leading_empty; [reflexivity | | ].
    + now constructor.
    + fold K. rewrite HK0. ring.
Qed.

End AnyRankClaims.

(** ** The constructor and the method together *)

Section Constructed.

Context {A : Type} (zero : A).

(** The convolution constructor modelled from the spec gives the weight
    the channel count it is asked for. *)
Lemma Conv_alloc_weight (junk : A) in_ch n k st (pad : Z + string) dil grp b
    pmode (s0 s1 : store A) c :
  Conv_alloc junk {| in_channels := in_ch; conv_out_channels := n;
                     kernel_size := k; stride := st; padding := pad;
                     dilation := dil; groups := grp; bias := b;
                     padding_mode := pmode |} s0 = (Return c, s1) ->
  exists t, s1 !! weight c = Some t /\ shape t = n :: in_ch / grp :: [k; k].
Proof.
  unfold Conv_alloc, bind, alloc, ret. cbn. intros H.
  inversion H; subst. eexists. split; [apply lookup_fresh | reflexivity].
Qed.

(** The constructor asks the convolution for [out_channels * r * r] output
    channels, and that is why the weight of a constructed module fits the
    method.  For a convolution constructor that gives its weight the shape
    [n :: I :: rest] whenever it is asked for [n] output channels, with the
    other arguments as the constructor passes them: the weight of the
    constructed module has shape [out_channels * r * r :: I :: rest], and
    the method, run on it, returns a tensor of that shape with uniform
    blocks of r² channels.  No divisibility is assumed. *)
Theorem constructed_weight_fits (Conv_new : conv_args -> M (A:=A) Conv)
    in_ch out r k st (pad : Z + string) dil grp b pmode
    (f : ref -> M (A:=A) ref) (s s' : store A) m I rest :
  (forall n s0 c s1,
     Conv_new {| in_channels := in_ch; conv_out_channels := n;
                 kernel_size := k; stride := st; padding := pad;
                 dilation := dil; groups := grp; bias := b;
                 padding_mode := pmode |} s0 = (Return c, s1) ->
     exists t, s1 !! weight c = Some t /\ shape t = n :: I :: rest) ->
  __init__ Conv_new in_ch out r k st pad dil grp b pmode f s = (Return m, s') ->
  r <> 1 -> r <> 0 -> 0 < out -> 0 < I -> Forall (fun d => 0 < d) rest ->
  shape_preserving f -> argument_local f ->
  exists t l' s'' t',
    s' !! weight (convolution m) = Some t /\
    shape t = out * r * r :: I :: rest /\
    icnr_initialization zero m (weight (convolution m)) s' = (Return l', s'') /\
    s'' !! l' = Some t' /\ shape t' = shape t /\
    forall o1 o2,
      0 <= o1 < out * r * r -> 0 <= o2 < out * r * r ->
      o1 / (r * r) = o2 / (r * r) ->
      select0 zero t' o1 = select0 zero t' o2.
Proof.
  intros Hconv Hinit Hr1 Hr0 Hout HI Hrest Hsp Hloc.
  unfold __init__, bind, PixelShuffle_new, ret in Hinit.
  destruct (Conv_new _ s) as [[c|e] s0] eqn:Hnew; [|discriminate].
  inversion Hinit; subst m s0. clear Hinit.
  destruct (Hconv _ _ _ _ Hnew) as (t & Hw & Hshape).
  destruct c as [w]. cbn [convolution weight] in *.
  change {| convolution := {| weight := w |};
            upsample := {| upscale_factor := r |};
            initializer := f |} with (built w r f).
  assert (0 < out * r * r) as HO by nia.
  assert ((r * r | out * r * r)) as Hdiv by (exists out; ring).
  destruct (icnr_any_rank_run zero w r f s' w t (out * r * r) I rest Hr1 Hsp
              Hloc Hw Hshape HO HI Hrest Hdiv)
    as (sub & l' & s'' & t' & Hobs & Hret & Hres & Hsh & HR & Hget).
  exists t, l', s'', t'. split; [exact Hw|]. split; [exact Hshape|].
  split; [exact Hret|]. split; [exact Hres|].
  split; [congruence|].
  intros o1 o2 Ho1 Ho2 Hblock.
  unfold select0. rewrite Hsh. cbn [tail]. apply gather_ext.
  { constructor; [lia|]. eapply Forall_impl; [exact Hrest|]. cbn. lia. }
  intros [|i ks]; cbn [Shape.in_range]; [tauto|].
  intros [Hi Hks].
  rewrite !Hget by (cbn; auto). now rewrite Hblock.
Qed.

End Constructed.

(** ** Instances of the further properties *)

Section MoreInstances.

Lemma icnr_zero_factor_witness :
  icnr_initialization 0 (built 0 0 ones) 0%nat [weight4]
  = (Raise ZeroDivisionError, [weight4]).
Proof.
  apply (icnr_zero_factor 0 (built 0 0 ones) 0%nat [weight4] weight4).
  - reflexivity.
  - reflexivity.
  - discriminate.
Defined.

Lemma icnr_no_axis_witness :
  icnr_initialization 0 (built 0 2 ones) 0%nat [mkTensor [] [7]]
  = (Raise IndexError, [mkTensor [] [7]]).
Proof.
  apply (icnr_no_axis 0 (built 0 2 ones) 0%nat [mkTensor [] [7]]
           (mkTensor [] [7])).
  - cbn. lia.
  - reflexivity.
  - reflexivity.
Defined.

Lemma icnr_initializer_raises_witness :
  icnr_initialization 0 (built 0 2 failing) 0%nat [weight4]
  = (Raise (OtherError "initializer failed"),
     [weight4; zeros_val 0 [1; 1; 1; 1]]).
Proof.
  apply (icnr_initializer_raises 0 (built 0 2 failing) 0%nat [weight4]
           weight4 4 [1; 1; 1]).
  - cbn. lia.
  - cbn. lia.
  - reflexivity.
  - reflexivity.
  - repeat constructor; lia.
  - reflexivity.
  - reflexivity.
Defined.

Lemma icnr_factor_sign_witness :
  icnr_initialization 0 (built 0 (- 2) ones) 0%nat
  = icnr_initialization 0 (built 0 2 ones) 0%nat.
Proof.
  apply (icnr_factor_sign 0 0%nat 2 ones 0%nat); lia.
Defined.

Lemma icnr_returns_new_tensor_witness :
  match icnr_initialization 0 (built 0 2 ones) 0%nat [weight4] with
  | (Return l', s') => l' <> 0%nat /\ s' !! 0%nat = Some weight4
  | (Raise _, s') => s' !! 0%nat = Some weight4
  end.
Proof.
  apply (icnr_returns_new_tensor 0 (built 0 2 ones) 0%nat [weight4] 0%nat
           weight4).
  - cbn. lia.
  - apply fill_in_place_argument_local.
  - reflexivity.
Defined.

(** A [Conv1d] weight: three axes. *)
Lemma icnr_any_rank_witness :
  exists sub l' s' t',
    observe (fill_in_place (by_channel 0 [1; 2]) 1%nat
               ([filled (constant 0) [8; 2; 3]]
                ++ [zeros_val 0 (8 / (2 * 2) :: 2 :: [3])]))
      = Return (Some sub) /\
    icnr_initialization 0 (built 0 2 (fill_in_place (by_channel 0 [1; 2])))
      0%nat [filled (constant 0) [8; 2; 3]] = (Return l', s') /\
    s' !! l' = Some t' /\
    shape t' = shape (filled (constant 0) [8; 2; 3]) /\
    forall o i ks,
      Shape.in_range (8 :: 2 :: [3]) (o :: i :: ks) ->
      get 0 t' (o :: i :: ks) = get 0 sub (o / (2 * 2) :: i :: ks).
Proof.
  apply (icnr_any_rank 0 0%nat 2 (fill_in_place (by_channel 0 [1; 2]))
           [filled (constant 0) [8; 2; 3]] 0%nat
           (filled (constant 0) [8; 2; 3]) 8 2 [3]).
  - lia.
  - apply fill_in_place_shape_preserving.
  - apply fill_in_place_argument_local.
  - reflexivity.
  - reflexivity.
  - lia.
  - lia.
  - repeat constructor; lia.
  - exists 2. reflexivity.
Defined.

(** A weight with two axes only. *)
Lemma icnr_any_rank_uniform_witness :
  exists l' s' t',
    icnr_initialization 0 (built 0 2 (fill_in_place (by_channel 0 [1; 2])))
      0%nat [filled (constant 0) [8; 5]] = (Return l', s') /\
    s' !! l' = Some t' /\
    forall o1 o2,
      0 <= o1 < 8 -> 0 <= o2 < 8 -> o1 / (2 * 2) = o2 / (2 * 2) ->
      select0 0 t' o1 = select0 0 t' o2.
Proof.
  apply (icnr_any_rank_uniform 0 0%nat 2
           (fill_in_place (by_channel 0 [1; 2]))
           [filled (constant 0) [8; 5]] 0%nat
           (filled (constant 0) [8; 5]) 8 5 []).
  - lia.
  - apply fill_in_place_shape_preserving.
  - apply fill_in_place_argument_local.
  - reflexivity.
  - reflexivity.
  - lia.
  - lia.
  - constructor.
  - exists 2. reflexivity.
Defined.

Lemma icnr_single_axis_witness :
  exists s',
    icnr_initialization 0 (built 0 2 ones) 0%nat [filled (constant 0) [4]]
    = (Raise IndexError, s').
Proof.
  apply (icnr_single_axis 0 0%nat 2 ones [filled (constant 0) [4]] 0%nat
           (filled (constant 0) [4]) 4).
  - lia.
  - lia.
  - apply fill_in_place_shape_preserving.
  - apply fill_in_place_argument_local.
  - reflexivity.
  - reflexivity.
  - lia.
Defined.

(** Three channels for r² = 4. *)
Lemma icnr_empty_subkernel_witness :
  exists s',
    icnr_initialization 0 (built 0 2 ones) 0%nat
      [filled (constant 0) [3; 3; 3; 3]]
    = (Raise (RuntimeError
         "cannot reshape tensor of 0 elements: the unspecified dimension size -1 is ambiguous"),
       s').
Proof.
  apply (icnr_empty_subkernel 0 0%nat 2 ones
           [filled (constant 0) [3; 3; 3; 3]] 0%nat
           (filled (constant 0) [3; 3; 3; 3]) 3 3 [3; 3]).
  - lia.
  - lia.
  - apply fill_in_place_shape_preserving.
  - apply fill_in_place_argument_local.
  - reflexivity.
  - reflexivity.
  - repeat constructor; lia.
  - reflexivity.
Defined.

Lemma constructed_weight_fits_witness :
  exists t l' s'' t',
    [filled (constant 0) [4; 3; 3; 3]] !! 0%nat = Some t /\
    shape t = 1 * 2 * 2 :: 3 :: [3; 3] /\
    icnr_initialization 0 (built 0 2 ones) 0%nat
      [filled (constant 0) [4; 3; 3; 3]] = (Return l', s'') /\
    s'' !! l' = Some t' /\
    shape t' = shape t /\
    forall o1 o2,
      0 <= o1 < 1 * 2 * 2 -> 0 <= o2 < 1 * 2 * 2 ->
      o1 / (2 * 2) = o2 / (2 * 2) ->
      select0 0 t' o1 = select0 0 t' o2.
Proof.
  apply (constructed_weight_fits 0 (Conv_alloc 0) 3 1 2 3 1
           (inr "same"%string) 1 1 true "zeros"%string ones
           [] [filled (constant 0) [4; 3; 3; 3]] (built 0 2 ones)
           3 [3; 3]).
  - intros n s0 c s1 H. exact (Conv_alloc_weight 0 3 n 3 1 _ 1 1 true _ s0 s1 c H).
  - reflexivity.
  - lia.
  - lia.
  - lia.
  - lia.
  - repeat constructor; lia.
  - apply fill_in_place_shape_preserving.
  - apply fill_in_place_argument_local.
Defined.

End MoreInstances.
